(** * clightning-dumpkeys: a shallow embedding of [clightning-dumpkeys.c]

    The program reads a 32-byte [hsm_secret], whitens it with HKDF-SHA256
    into a BIP32 seed, derives m/0/0 and prints the re-rooted extended
    private key as one Base58Check line.

    Layout of the development:
    - [Bytes]      machine integers and their byte representations;
    - [Radix]      positional number systems (used by Base58);
    - [Base58]     Base58 and Base58Check text encoding;
    - [Wally]      the interface of the vendored key-derivation library;
    - [Dumpkeys]   the program itself, function by function, over a small
                   model of [open] and [read];
    - [Mock]       test doubles of the library, used to run the program;
    - [ReadAll]    the contract of [read_all];
    - [Pipeline]   the seed loop and the seven ways a run can end;
    - [Loading]    what [load_hsm] gets out of the secret file;
    - [Correctness], [Robustness]  the properties of the program;
    - [Examples]   the properties at work on concrete runs. *)

From Stdlib.Strings Require Import Ascii String Byte.
From Stdlib Require Import ZArith NArith Lia List Bool Arith.
Set Warnings "-warn-library-file-stdlib-vector".
From Stdlib Require Vector.
Import ListNotations.

#[local] Open Scope Z_scope.

(* ================================================================== *)
(** ** Machine integers and bytes *)
(* ================================================================== *)

Module Bytes.

(** [u8] and array cells are [Byte.byte]; [u32] is a [Z] in [0, 2^32). *)

Definition u32_modulus : Z := 2 ^ 32.

Definition wrap32 (x : Z) : Z := x mod u32_modulus.

(** [x++] on a [u32]. *)
Definition u32_incr (x : Z) : Z := wrap32 (x + 1).

(** [b] as a number. *)
Definition byte_val (b : byte) : Z := Z.of_N (Byte.to_N b).

(** The byte holding [x mod 256]; this is what storing an integer into a
    [u8] cell does. *)
Definition byte_of_N (n : N) : byte :=
  match Byte.of_N (n mod 256) with
  | Some b => b
  | None => x00
  end.

Definition byte_of_Z (x : Z) : byte := byte_of_N (Z.to_N (x mod 256)).

(** In-memory image of a [u32] on the (little-endian) machines the program
    is built for: least significant byte first.  This is what
    [&salt, sizeof(salt)] hands to the KDF. *)
Definition u32_le_bytes (x : Z) : list byte :=
  [ byte_of_Z x;
    byte_of_Z (Z.shiftr x 8);
    byte_of_Z (Z.shiftr x 16);
    byte_of_Z (Z.shiftr x 24) ].

(** The number a little-endian byte string denotes. *)
Fixpoint le_value (bs : list byte) : Z :=
  match bs with
  | [] => 0
  | b :: bs' => byte_val b + 256 * le_value bs'
  end.

(** Big-endian image of a [u32] ([cpu_to_be32] followed by a 4-byte copy). *)
Definition u32_be_bytes (x : Z) : list byte :=
  [ byte_of_Z (Z.shiftr x 24);
    byte_of_Z (Z.shiftr x 16);
    byte_of_Z (Z.shiftr x 8);
    byte_of_Z x ].

(** [memcpy(buf + off, src, length src)]: overwrite a window of [buf]. *)
Definition splice (buf : list byte) (off : nat) (src : list byte) : list byte :=
  firstn off buf ++ src ++ skipn (off + length src) buf.

Lemma byte_of_N_to_N (b : byte) : byte_of_N (Byte.to_N b) = b.
Proof.
  unfold byte_of_N.
  assert (Hb : (Byte.to_N b <= 255)%N) by apply Byte.to_N_bounded.
  rewrite N.mod_small by lia.
  now rewrite Byte.of_to_N.
Qed.

Lemma to_N_byte_of_N (n : N) : Byte.to_N (byte_of_N n) = (n mod 256)%N.
Proof.
  unfold byte_of_N.
  destruct (Byte.of_N (n mod 256)) as [b|] eqn:E.
  - now apply Byte.to_of_N.
  - apply Byte.of_N_None_iff in E.
    assert (n mod 256 < 256)%N by (apply N.mod_upper_bound; lia). lia.
Qed.

Lemma byte_val_range (b : byte) : 0 <= byte_val b < 256.
Proof.
  unfold byte_val. pose proof (Byte.to_N_bounded b). lia.
Qed.

Lemma byte_val_of_Z (x : Z) : byte_val (byte_of_Z x) = x mod 256.
Proof.
  unfold byte_val, byte_of_Z. rewrite to_N_byte_of_N.
  assert (0 <= x mod 256 < 256) by (apply Z.mod_pos_bound; lia).
  rewrite N.mod_small by lia. lia.
Qed.

Lemma wrap32_range (x : Z) : 0 <= wrap32 x < u32_modulus.
Proof. unfold wrap32, u32_modulus. apply Z.mod_pos_bound. lia. Qed.

Lemma wrap32_small (x : Z) : 0 <= x < u32_modulus -> wrap32 x = x.
Proof. intros H. unfold wrap32. now apply Z.mod_small. Qed.

(** Reading back the memory image of a [u32] gives the value stored. *)
Lemma le_value_u32 (x : Z) : le_value (u32_le_bytes x) = wrap32 x.
Proof.
  unfold u32_le_bytes, le_value, wrap32, u32_modulus.
  rewrite !byte_val_of_Z, !Z.shiftr_div_pow2 by lia.
  change (2 ^ 8) with 256. change (2 ^ 16) with 65536.
  change (2 ^ 24) with 16777216. change (2 ^ 32) with 4294967296.
  pose proof (Z.div_mod x 4294967296 ltac:(lia)) as H.
  pose proof (Z.mod_pos_bound x 4294967296 ltac:(lia)) as Hr.
  set (r := x mod 4294967296) in *.
  set (q := x / 4294967296) in *.
  assert (E0 : x mod 256 = r mod 256).
  { rewrite H. replace (4294967296 * q + r) with (r + (16777216 * q) * 256) by lia.
    apply Z.mod_add. lia. }
  assert (E1 : (x / 256) mod 256 = (r / 256) mod 256).
  { rewrite H. replace (4294967296 * q + r) with (r + (16777216 * q) * 256) by lia.
    rewrite Z.div_add by lia.
    replace (r / 256 + 16777216 * q) with (r / 256 + (65536 * q) * 256) by lia.
    apply Z.mod_add. lia. }
  assert (E2 : (x / 65536) mod 256 = (r / 65536) mod 256).
  { rewrite H. replace (4294967296 * q + r) with (r + (65536 * q) * 65536) by lia.
    rewrite Z.div_add by lia.
    replace (r / 65536 + 65536 * q) with (r / 65536 + (256 * q) * 256) by lia.
    apply Z.mod_add. lia. }
  assert (E3 : (x / 16777216) mod 256 = (r / 16777216) mod 256).
  { rewrite H. replace (4294967296 * q + r) with (r + (256 * q) * 16777216) by lia.
    rewrite Z.div_add by lia.
    replace (r / 16777216 + 256 * q) with (r / 16777216 + q * 256) by lia.
    apply Z.mod_add. lia. }
  rewrite E0, E1, E2, E3.
  pose proof (Z.div_mod r 256 ltac:(lia)).
  pose proof (Z.div_mod (r / 256) 256 ltac:(lia)).
  pose proof (Z.div_mod (r / 65536) 256 ltac:(lia)).
  assert (r / 65536 = r / 256 / 256) by (rewrite Z.div_div by lia; reflexivity).
  assert (r / 16777216 = r / 65536 / 256) by (rewrite Z.div_div by lia; reflexivity).
  assert (0 <= r / 16777216 < 256).
  { split; [apply Z.div_pos; lia | apply Z.div_lt_upper_bound; lia]. }
  rewrite (Z.mod_small (r / 16777216) 256) by lia.
  lia.
Qed.

Lemma length_u32_le_bytes (x : Z) : length (u32_le_bytes x) = 4%nat.
Proof. reflexivity. Qed.

Lemma length_splice (buf src : list byte) (off : nat) :
  (off + length src <= length buf)%nat ->
  length (splice buf off src) = length buf.
Proof.
  intros H. unfold splice.
  rewrite !length_app, length_firstn, length_skipn. lia.
Qed.

End Bytes.

(* ================================================================== *)
(** ** Positional number systems *)
(* ================================================================== *)

Module Radix.

#[local] Open Scope N_scope.

(** Digits of [n] in base [b], least significant first, no padding.  The
    loop runs once per digit; [fuel] bounds the number of digits. *)
Fixpoint digits_le (b : N) (fuel : nat) (n : N) : list N :=
  match fuel with
  | O => []
  | S fuel' =>
      if n =? 0 then [] else n mod b :: digits_le b fuel' (n / b)
  end.

(** Value of a least-significant-first digit string. *)
Fixpoint value_le (b : N) (ds : list N) : N :=
  match ds with
  | [] => 0
  | d :: ds' => d + b * value_le b ds'
  end.

(** Most significant digit first, as they are written. *)
Definition digits (b n : N) : list N := rev (digits_le b (N.size_nat n) n).

Definition value (b : N) (ds : list N) : N := value_le b (rev ds).

(** A canonical digit string: every digit below the base, the most
    significant one not zero. *)
Definition canonical_le (b : N) (ds : list N) : Prop :=
  Forall (fun d => d < b) ds /\ last ds 1 <> 0.

Lemma size_nat_bound (n : N) : n < 2 ^ N.of_nat (N.size_nat n).
Proof.
  destruct n as [|p]; [reflexivity|].
  cbn [N.size_nat].
  induction p as [p IH|p IH|]; cbn [Pos.size_nat].
  - rewrite Nat2N.inj_succ, N.pow_succ_r'. lia.
  - rewrite Nat2N.inj_succ, N.pow_succ_r'. lia.
  - reflexivity.
Qed.

Lemma value_digits_le (b : N) (fuel : nat) (n : N) :
  2 <= b -> n < 2 ^ N.of_nat fuel -> value_le b (digits_le b fuel n) = n.
Proof.
  intros Hb. revert n.
  induction fuel as [|fuel IH]; intros n Hn.
  - cbn in Hn. cbn. lia.
  - cbn [digits_le]. destruct (N.eqb_spec n 0) as [->|Hnz]; [reflexivity|].
    cbn [value_le]. rewrite IH.
    + pose proof (N.div_mod' n b). lia.
    + rewrite Nat2N.inj_succ, N.pow_succ_r' in Hn.
      apply N.Div0.div_lt_upper_bound.
      assert (2 ^ N.of_nat fuel > 0) by (apply N.lt_gt, N.neq_0_lt_0, N.pow_nonzero; lia).
      nia.
Qed.

Lemma value_le_pos (b : N) (ds : list N) :
  0 < b -> ds <> [] -> last ds 1 <> 0 -> value_le b ds <> 0.
Proof.
  intros Hb. induction ds as [|d ds IH]; intros Hne Hl; [congruence|].
  cbn [value_le].
  destruct ds as [|d' ds'].
  - cbn in *. lia.
  - assert (Hr : value_le b (d' :: ds') <> 0) by (apply IH; [discriminate | exact Hl]).
    intros H0. apply N.eq_add_0 in H0 as [_ H0].
    apply N.eq_mul_0 in H0. lia.
Qed.

Lemma digits_value_le (b : N) (ds : list N) (fuel : nat) :
  2 <= b -> canonical_le b ds -> value_le b ds < 2 ^ N.of_nat fuel ->
  digits_le b fuel (value_le b ds) = ds.
Proof.
  intros Hb. revert fuel.
  induction ds as [|d ds IH]; intros fuel [Hall Hlast] Hfuel.
  - destruct fuel; reflexivity.
  - assert (Hv : value_le b (d :: ds) <> 0).
    { apply value_le_pos; [lia | discriminate | exact Hlast]. }
    destruct fuel as [|fuel].
    + change (2 ^ N.of_nat 0) with 1 in Hfuel. lia.
    + cbn [digits_le]. destruct (N.eqb_spec (value_le b (d :: ds)) 0); [contradiction|].
      inversion Hall as [|? ? Hd Hall']; subst.
      cbn [value_le].
      assert (Hm : (d + b * value_le b ds) mod b = d).
      { rewrite N.mul_comm, N.Div0.mod_add. now apply N.mod_small. }
      assert (Hq : (d + b * value_le b ds) / b = value_le b ds).
      { rewrite N.mul_comm, N.div_add by lia. rewrite N.div_small by lia. lia. }
      rewrite Hm, Hq. f_equal.
      apply IH.
      * split; [exact Hall'|].
        destruct ds as [|d' ds']; [cbn; lia | exact Hlast].
      * rewrite Nat2N.inj_succ, N.pow_succ_r' in Hfuel.
        cbn [value_le] in Hfuel. nia.
Qed.

Lemma digits_le_canonical (b : N) (fuel : nat) (n : N) :
  2 <= b -> n < 2 ^ N.of_nat fuel -> canonical_le b (digits_le b fuel n).
Proof.
  intros Hb. revert n.
  induction fuel as [|fuel IH]; intros n Hn.
  - split; [constructor | cbn; lia].
  - cbn [digits_le]. destruct (N.eqb_spec n 0) as [->|Hnz].
    + split; [constructor | cbn; lia].
    + assert (Hq : n / b < 2 ^ N.of_nat fuel).
      { rewrite Nat2N.inj_succ, N.pow_succ_r' in Hn.
        apply N.Div0.div_lt_upper_bound.
        assert (2 ^ N.of_nat fuel <> 0) by (apply N.pow_nonzero; lia).
        nia. }
      destruct (IH (n / b) Hq) as [Hall Hlast].
      split.
      * constructor; [apply N.mod_upper_bound; lia | exact Hall].
      * pose proof (value_digits_le b fuel (n / b) Hb Hq) as Hv.
        destruct (digits_le b fuel (n / b)) as [|d ds] eqn:E.
        -- cbn in Hv. cbn [last].
           pose proof (N.div_mod' n b). 
           replace (n mod b) with n by lia. exact Hnz.
        -- exact Hlast.
Qed.

(** Round trips, most significant digit first. *)
Lemma value_digits (b n : N) : 2 <= b -> value b (digits b n) = n.
Proof.
  intros Hb. unfold value, digits. rewrite rev_involutive.
  apply value_digits_le; [exact Hb | apply size_nat_bound].
Qed.

Lemma digits_value (b : N) (ds : list N) :
  2 <= b -> canonical_le b (rev ds) -> digits b (value b ds) = ds.
Proof.
  intros Hb Hc. unfold value, digits.
  rewrite digits_value_le; [apply rev_involutive | exact Hb | exact Hc |].
  apply size_nat_bound.
Qed.

Lemma digits_canonical (b n : N) : 2 <= b -> canonical_le b (rev (digits b n)).
Proof.
  intros Hb. unfold digits. rewrite rev_involutive.
  apply digits_le_canonical; [exact Hb | apply size_nat_bound].
Qed.

Lemma digits_zero (b : N) : digits b 0 = [].
Proof. reflexivity. Qed.

End Radix.

(* ================================================================== *)
(** ** Base58 and Base58Check *)
(* ================================================================== *)

Module Base58.

Import Bytes.

(** Modelled from the spec: [base58.c] is not part of the sources at hand.
    The spec (4.3) says: append a 4-byte checksum (first 4 bytes of the
    double SHA-256 of the payload), then Base58-encode the result; the
    output is pure ASCII without whitespace.  Base58 itself is the usual
    Bitcoin encoding: every leading zero byte becomes the character '1',
    the remaining bytes are read as one big-endian number and written in
    base 58 over the alphabet below. *)
Definition alphabet : list ascii :=
  list_ascii_of_string
    "123456789ABCDEFGHJKLMNPQRSTUVWXYZabcdefghijkmnopqrstuvwxyz".

Definition b58_char (d : N) : ascii := nth (N.to_nat d) alphabet "1"%char.

Fixpoint index_of (c : ascii) (cs : list ascii) : option N :=
  match cs with
  | [] => None
  | c' :: cs' =>
      if Ascii.eqb c c' then Some 0%N
      else option_map N.succ (index_of c cs')
  end.

Definition b58_index (c : ascii) : option N := index_of c alphabet.

Fixpoint leading_zeros (bs : list byte) : nat :=
  match bs with
  | b :: bs' => if Byte.eqb b x00 then S (leading_zeros bs') else O
  | [] => O
  end.

Fixpoint leading_ones (cs : list ascii) : nat :=
  match cs with
  | c :: cs' => if Ascii.eqb c "1" then S (leading_ones cs') else O
  | [] => O
  end.

Fixpoint map_option {A B} (f : A -> option B) (l : list A) : option (list B) :=
  match l with
  | [] => Some []
  | a :: l' =>
      match f a, map_option f l' with
      | Some b, Some bs => Some (b :: bs)
      | _, _ => None
      end
  end.

Definition encode_chars (bs : list byte) : list ascii :=
  let z := leading_zeros bs in
  let body := skipn z bs in
  repeat "1"%char z
    ++ map b58_char (Radix.digits 58 (Radix.value 256 (map Byte.to_N body))).

Definition decode_chars (cs : list ascii) : option (list byte) :=
  let z := leading_ones cs in
  match map_option b58_index (skipn z cs) with
  | None => None
  | Some ds =>
      Some (repeat x00 z ++ map byte_of_N (Radix.digits 256 (Radix.value 58 ds)))
  end.

Definition encode (bs : list byte) : string :=
  string_of_list_ascii (encode_chars bs).

Definition decode (s : string) : option (list byte) :=
  decode_chars (list_ascii_of_string s).

Definition bytes_eqb (a b : list byte) : bool :=
  if list_eq_dec Byte.byte_eq_dec a b then true else false.

Section Check.

(** The hash is a parameter: SHA-256 with its 32-byte digest. *)
Variable sha256 : list byte -> Vector.t byte 32.

Definition sha256d (m : list byte) : list byte :=
  Vector.to_list (sha256 (Vector.to_list (sha256 m))).

Definition checksum (payload : list byte) : list byte :=
  firstn 4 (sha256d payload).

Definition check_encode (payload : list byte) : string :=
  encode (payload ++ checksum payload).

(** Decode, split off the last four bytes and verify them. *)
Definition check_decode (s : string) : option (list byte) :=
  match decode s with
  | None => None
  | Some bs =>
      let n := (length bs - 4)%nat in
      let payload := firstn n bs in
      if (4 <=? length bs)%nat && bytes_eqb (skipn n bs) (checksum payload)
      then Some payload
      else None
  end.

End Check.

(** *** The alphabet *)

Lemma alphabet_roundtrip (d : N) :
  (d < 58)%N -> b58_index (b58_char d) = Some d.
Proof.
  intros Hd.
  assert (Hall : forallb (fun k =>
            match b58_index (b58_char (N.of_nat k)) with
            | Some d' => N.eqb d' (N.of_nat k)
            | None => false
            end) (seq 0 58) = true) by (vm_compute; reflexivity).
  rewrite forallb_forall in Hall.
  specialize (Hall (N.to_nat d)).
  rewrite N2Nat.id in Hall.
  assert (Hin : In (N.to_nat d) (seq 0 58)) by (apply in_seq; lia).
  specialize (Hall Hin).
  destruct (b58_index (b58_char d)) as [d'|]; [|discriminate].
  apply N.eqb_eq in Hall. now subst.
Qed.

Lemma b58_char_one (d : N) :
  (d < 58)%N -> d <> 0%N -> Ascii.eqb (b58_char d) "1" = false.
Proof.
  intros Hd Hnz.
  assert (Hall : forallb (fun k => negb (Ascii.eqb (b58_char (N.of_nat k)) "1"))
                         (seq 1 57) = true) by (vm_compute; reflexivity).
  rewrite forallb_forall in Hall.
  specialize (Hall (N.to_nat d)).
  rewrite N2Nat.id in Hall.
  assert (Hin : In (N.to_nat d) (seq 1 57)) by (apply in_seq; lia).
  apply Hall in Hin. now apply negb_true_iff in Hin.
Qed.

Lemma b58_char_in_alphabet (d : N) : (d < 58)%N -> In (b58_char d) alphabet.
Proof.
  intros Hd. unfold b58_char. apply nth_In.
  change (length alphabet) with 58%nat. lia.
Qed.

(** *** Leading padding *)

Lemma leading_zeros_split (bs : list byte) :
  repeat x00 (leading_zeros bs) ++ skipn (leading_zeros bs) bs = bs.
Proof.
  induction bs as [|b bs IH]; [reflexivity|].
  cbn [leading_zeros].
  destruct (Byte.eqb b x00) eqn:E.
  - apply Byte.byte_dec_bl in E. subst b. cbn. now rewrite IH.
  - reflexivity.
Qed.

Lemma leading_zeros_body (bs : list byte) :
  hd x01 (skipn (leading_zeros bs) bs) <> x00.
Proof.
  induction bs as [|b bs IH]; [discriminate|].
  cbn [leading_zeros].
  destruct (Byte.eqb b x00) eqn:E.
  - exact IH.
  - cbn. now apply Byte.eqb_false.
Qed.

Lemma leading_ones_pad (z : nat) (cs : list ascii) :
  Ascii.eqb (hd "2"%char cs) "1" = false ->
  leading_ones (repeat "1"%char z ++ cs) = z /\
  skipn z (repeat "1"%char z ++ cs) = cs.
Proof.
  intros Hhd. induction z as [|z [IH1 IH2]].
  - cbn. split; [|reflexivity].
    destruct cs as [|c cs]; [reflexivity|].
    cbn in *. now rewrite Hhd.
  - cbn. now rewrite IH1, IH2.
Qed.

Lemma map_option_map {A B} (f : A -> option B) (g : B -> A) (l : list B) :
  Forall (fun b => f (g b) = Some b) l -> map_option f (map g l) = Some l.
Proof.
  induction 1 as [|b l Hb _ IH]; [reflexivity|].
  cbn. now rewrite Hb, IH.
Qed.

Lemma last_rev_hd {A} (l : list A) (d : A) : last (rev l) d = hd d l.
Proof.
  destruct l as [|a l]; [reflexivity|].
  cbn. now rewrite last_last.
Qed.

(** *** Round trip *)

Lemma decode_encode_chars (bs : list byte) :
  decode_chars (encode_chars bs) = Some bs.
Proof.
  unfold decode_chars, encode_chars.
  set (z := leading_zeros bs).
  set (body := skipn z bs).
  set (n := Radix.value 256 (map Byte.to_N body)).
  pose proof (Radix.digits_canonical 58 n ltac:(lia)) as [Hall Hlast].
  rewrite last_rev_hd in Hlast.
  apply Forall_rev in Hall. rewrite rev_involutive in Hall.
  assert (Hhd : Ascii.eqb (hd "2"%char (map b58_char (Radix.digits 58 n))) "1" = false).
  { destruct (Radix.digits 58 n) as [|d ds]; [reflexivity|].
    cbn in *. inversion Hall; subst. now apply b58_char_one. }
  destruct (leading_ones_pad z _ Hhd) as [-> ->].
  rewrite map_option_map.
  2:{ eapply Forall_impl; [|exact Hall]. intros d Hd. now apply alphabet_roundtrip. }
  rewrite Radix.value_digits by lia.
  subst n. rewrite Radix.digits_value.
  - rewrite map_map.
    rewrite (map_ext _ (fun b => b)) by apply byte_of_N_to_N.
    rewrite map_id. subst body z. now rewrite leading_zeros_split.
  - lia.
  - split.
    + apply Forall_rev, Forall_map, Forall_forall. intros b _.
      pose proof (Byte.to_N_bounded b). lia.
    + rewrite last_rev_hd.
      pose proof (leading_zeros_body bs) as Hb. fold z in Hb. fold body in Hb.
      destruct body as [|b body']; [cbn; lia|].
      cbn in *. intros H0. apply Hb.
      rewrite <- (byte_of_N_to_N b), H0. reflexivity.
Qed.

Lemma decode_encode (bs : list byte) : decode (encode bs) = Some bs.
Proof.
  unfold decode, encode.
  rewrite list_ascii_of_string_of_list_ascii. apply decode_encode_chars.
Qed.

Lemma bytes_eqb_refl (a : list byte) : bytes_eqb a a = true.
Proof. unfold bytes_eqb. destruct (list_eq_dec _ a a); congruence. Qed.

Lemma length_checksum sha256 (payload : list byte) :
  length (checksum sha256 payload) = 4%nat.
Proof.
  unfold checksum, sha256d.
  rewrite length_firstn, Vector.length_to_list. reflexivity.
Qed.

Lemma check_decode_encode sha256 (payload : list byte) :
  check_decode sha256 (check_encode sha256 payload) = Some payload.
Proof.
  unfold check_decode, check_encode. rewrite decode_encode.
  pose proof (length_checksum sha256 payload) as Hc.
  rewrite length_app, Hc.
  replace (length payload + 4 - 4)%nat with (length payload + 0)%nat by lia.
  rewrite firstn_app_2, skipn_app. cbn [firstn].
  rewrite app_nil_r.
  replace (length payload + 0 - length payload)%nat with 0%nat by lia.
  rewrite Nat.add_0_r, skipn_all. cbn [skipn app].
  rewrite bytes_eqb_refl.
  destruct (Nat.leb_spec 4 (length payload + 4)); [reflexivity | lia].
Qed.

(** Known encodings. *)
Lemma encode_vectors :
  encode [] = ""%string
  /\ encode [x61] = "2g"%string
  /\ encode [x62; x62; x62] = "a3gV"%string
  /\ encode [x51; x6b; x6f; xcd; x0f] = "ABnLTmg"%string
  /\ encode [x57; x2e; x47; x94] = "3EFU7m"%string
  /\ encode (repeat x00 10) = "1111111111"%string.
Proof. repeat split; vm_compute; reflexivity. Qed.

(** Every character of an encoding is in the alphabet: no whitespace, no
    line break. *)
Lemma encode_chars_alphabet (bs : list byte) :
  Forall (fun c => In c alphabet) (encode_chars bs).
Proof.
  unfold encode_chars. apply Forall_app. split.
  - apply Forall_forall. intros c Hc. apply repeat_spec in Hc. subst c.
    left. reflexivity.
  - apply Forall_map.
    pose proof (Radix.digits_canonical 58
      (Radix.value 256 (map Byte.to_N (skipn (leading_zeros bs) bs))) ltac:(lia))
      as [Hall _].
    apply Forall_rev in Hall. rewrite rev_involutive in Hall.
    eapply Forall_impl; [|exact Hall].
    intros d Hd. now apply b58_char_in_alphabet.
Qed.

End Base58.

(* ================================================================== *)
(** ** The key-derivation library, as the program sees it *)
(* ================================================================== *)

Module Wally.

Import Bytes.

(** Modelled from the spec: [struct ext_key] is declared in [bip32.h], which
    is not part of the sources at hand.  The spec (3) lists version tag,
    depth, parent fingerprint, chain code (32 bytes), key material (a
    33-byte field: 0x00 and the 32-byte scalar, or the compressed point)
    and child index.  The program names the fields [version], [depth] and
    [parent160]; the latter is a 160-bit hash of which the serialization
    keeps the first four bytes, the fingerprint. *)
Record ext_key := mk_ext_key {
  chain_code : Vector.t byte 32;
  parent160 : Vector.t byte 20;
  depth : Z;                      (* uint8_t *)
  priv_key : Vector.t byte 33;
  child_num : Z;                  (* uint32_t *)
  version : Z;                    (* uint32_t *)
  pub_key : Vector.t byte 33
}.

Definition set_version (k : ext_key) (v : Z) : ext_key :=
  mk_ext_key (chain_code k) (parent160 k) (depth k) (priv_key k)
             (child_num k) v (pub_key k).

Definition set_depth (k : ext_key) (d : Z) : ext_key :=
  mk_ext_key (chain_code k) (parent160 k) d (priv_key k)
             (child_num k) (version k) (pub_key k).

Definition set_parent160 (k : ext_key) (p : Vector.t byte 20) : ext_key :=
  mk_ext_key (chain_code k) p (depth k) (priv_key k)
             (child_num k) (version k) (pub_key k).

(** Modelled from the spec: the mainnet version pair (8, Scenario) and the
    length of a serialized key (4.3); [BIP32_VER_MAIN_PUBLIC],
    [BIP32_VER_MAIN_PRIVATE] and [BIP32_SERIALIZED_LEN] are macros of the
    absent [bip32.h]. *)
Definition BIP32_VER_MAIN_PUBLIC : Z := 0x0488B21E.
Definition BIP32_VER_MAIN_PRIVATE : Z := 0x0488ADE4.
Definition BIP32_SERIALIZED_LEN : nat := 78.

(** Modelled from the spec: a child index carries a hardened-flag bit (3);
    it is the top bit of the 32-bit index. *)
Definition is_hardened (child_num : Z) : bool := Z.testbit child_num 31.

(** Everything else the program takes from its headers and from the C
    library.  The cryptographic primitives are trusted (spec, 1): they are
    deterministic functions of their arguments and nothing more is assumed
    of them.  Constants whose value the program never inspects are left
    abstract as well. *)
Class Lib := {
  (* wally_core.h, bip32.h, base58.h *)
  WALLY_OK : Z;
  BIP32_FLAG_KEY_PRIVATE : Z;
  BIP32_VER_TEST_PUBLIC : Z;
  BIP32_VER_TEST_PRIVATE : Z;
  BASE58_FLAG_CHECKSUM : Z;
  (* secp256k1.h *)
  secp256k1_context : Type;
  SECP256K1_CONTEXT_VERIFY : Z;
  SECP256K1_CONTEXT_SIGN : Z;
  secp256k1_context_create : Z -> secp256k1_context;
  (* hkdf.h: okm_size, salt, input key material, info |-> okm *)
  hkdf_sha256 : nat -> list byte -> list byte -> list byte -> list byte;
  (* bip32.h: return code and the key written through the out pointer *)
  bip32_key_from_seed :
    secp256k1_context -> list byte -> Z -> Z -> Z * ext_key;
  bip32_key_from_parent :
    secp256k1_context -> ext_key -> Z -> Z -> Z * ext_key;
  (* the keys [bip32_key_serialize] accepts under the given flags *)
  serializable : ext_key -> Z -> bool;
  (* the hash behind the Base58Check checksum *)
  sha256 : list byte -> Vector.t byte 32;
  (* errno.h, string.h *)
  EINTR : Z;
  strerror : Z -> string;
  (* assert.h: what a failed assert writes to standard error, in the
     format the C library has for it, given the name the program was
     started under, the line, the function and the text of the
     expression *)
  assert_message : string -> Z -> string -> string -> string
}.

Section Encoder.

Context {L : Lib}.

(** Modelled from the spec: [bip32_key_serialize] lives in the absent
    [bip32.c].  Layout (4.3), big-endian, 78 bytes: 4 bytes version tag,
    1 byte depth, 4 bytes parent fingerprint, 4 bytes child index,
    32 bytes chain code, 33 bytes key material. *)
Definition serialized (k : ext_key) (flags : Z) : list byte :=
  u32_be_bytes (version k)
    ++ [byte_of_Z (depth k)]
    ++ firstn 4 (Vector.to_list (parent160 k))
    ++ u32_be_bytes (child_num k)
    ++ Vector.to_list (chain_code k)
    ++ Vector.to_list (if flags =? BIP32_FLAG_KEY_PRIVATE
                       then priv_key k else pub_key k).

(** Modelled from the spec: serialization is infallible on well-formed
    input (7, EncodingError); a key the library rejects, or a buffer of
    the wrong length, gives an error code, here [None]. *)
Definition bip32_key_serialize (k : ext_key) (flags : Z) (len : nat)
  : option (list byte) :=
  if serializable k flags && (len =? BIP32_SERIALIZED_LEN)%nat
  then Some (serialized k flags)
  else None.

(** Modelled from the spec: [wally_base58_from_bytes] lives in the absent
    [base58.c]; with [BASE58_FLAG_CHECKSUM] it is Base58Check (4.3). *)
Definition wally_base58_from_bytes (bytes : list byte) (flags : Z) : string :=
  if flags =? BASE58_FLAG_CHECKSUM
  then Base58.check_encode sha256 bytes
  else Base58.encode bytes.

Lemma length_serialized (k : ext_key) (flags : Z) :
  length (serialized k flags) = 78%nat.
Proof.
  unfold serialized.
  rewrite !length_app, length_firstn, !Vector.length_to_list.
  reflexivity.
Qed.

End Encoder.

End Wally.

(* ================================================================== *)
(** ** The program *)
(* ================================================================== *)

Module Dumpkeys.

Import Bytes Wally.

(** *** The operating system *)

(** What one call of [read(2)] may do, decided by the kernel and not by the
    program: fail with some [errno], or hand over at most [S k] bytes. *)
Inductive read_event :=
| RdErr (e : Z)
| RdChunk (k : nat).

(** An open file description: contents, offset, and what the coming
    calls of [read] will do.  Once the schedule is used up, [read] hands
    over everything that is asked for and available. *)
Record open_file := mk_open_file {
  f_data : list byte;
  f_pos : nat;
  f_sched : list read_event
}.

(** The state [read_all] works on: the descriptor, [errno] and the memory
    its [data] pointer points into. *)
Record io := mk_io {
  io_file : open_file;
  io_errno : Z;
  io_mem : list byte
}.

(** The bytes not yet consumed. *)
Definition unread (f : open_file) : list byte := skipn (f_pos f) (f_data f).

(** [read(fd, data, size)]: the return value and the state after the call.
    [data] is an offset into [io_mem]. *)
Definition sys_read (st : io) (data size : nat) : Z * io :=
  let f := io_file st in
  match f_sched f with
  | RdErr e :: sched =>
      (-1, mk_io (mk_open_file (f_data f) (f_pos f) sched) e (io_mem st))
  | RdChunk k :: sched =>
      let bs := firstn (Nat.min (S k) size) (unread f) in
      (Z.of_nat (length bs),
       mk_io (mk_open_file (f_data f) (f_pos f + length bs) sched)
             (io_errno st) (splice (io_mem st) data bs))
  | [] =>
      let bs := firstn size (unread f) in
      (Z.of_nat (length bs),
       mk_io (mk_open_file (f_data f) (f_pos f + length bs) [])
             (io_errno st) (splice (io_mem st) data bs))
  end.

(** What the process is started with: its arguments, the files it can
    open (an [errno] or the contents) and the kernel's read schedule. *)
Record environment := mk_environment {
  argv : list string;
  fs : string -> Z + list byte;
  sched : list read_event
}.

Section Program.

Context {L : Lib}.

(** *** [read_all] *)

(** The [while (size)] loop; one unit of [fuel] per turn. *)
Fixpoint read_all (fuel : nat) (st : io) (data size : nat)
  : option (bool * io) :=
  match fuel with
  | O => None
  | S fuel' =>
      if (size =? 0)%nat then Some (true, st)
      else
        let '(done, st') := sys_read st data size in
        if (done <? 0) && (io_errno st' =? EINTR) then
          read_all fuel' st' data size
        else if done <=? 0 then Some (false, st')
        else read_all fuel' st' (data + Z.to_nat done) (size - Z.to_nat done)
  end.

(** *** Process state *)

Record bip32_key_version := mk_key_version {
  bip32_pubkey_version : Z;
  bip32_privkey_version : Z
}.

(** Calls into the library and the system, in the order they are made. *)
Inductive call :=
| Call_open (path : string)
| Call_hkdf_sha256 (okm_size : nat) (salt ikm info : list byte)
| Call_bip32_key_from_seed (seed : list byte) (version flags : Z)
| Call_bip32_key_from_parent (parent : ext_key) (child_num flags : Z)
| Call_bip32_key_serialize (key : ext_key) (flags : Z)
| Call_wally_base58_from_bytes (bytes : list byte) (flags : Z).

Record world := mk_world {
  hsm_secret : list byte;            (* secretstuff.hsm_secret.data *)
  bip32 : ext_key;                   (* secretstuff.bip32 *)
  key_version : bip32_key_version;   (* the static bip32_key_version *)
  errno : Z;
  stdout : string;
  stderr : string;
  calls : list call;
  progname : string                  (* argv[0], as the C runtime keeps it *)
}.

Definition set_hsm_secret (w : world) (s : list byte) : world :=
  mk_world s (bip32 w) (key_version w) (errno w) (stdout w) (stderr w) (calls w)
           (progname w).
Definition set_bip32 (w : world) (k : ext_key) : world :=
  mk_world (hsm_secret w) k (key_version w) (errno w) (stdout w) (stderr w)
           (calls w) (progname w).
Definition set_key_version (w : world) (v : bip32_key_version) : world :=
  mk_world (hsm_secret w) (bip32 w) v (errno w) (stdout w) (stderr w) (calls w)
           (progname w).
Definition set_errno (w : world) (e : Z) : world :=
  mk_world (hsm_secret w) (bip32 w) (key_version w) e (stdout w) (stderr w)
           (calls w) (progname w).
Definition set_stdout (w : world) (s : string) : world :=
  mk_world (hsm_secret w) (bip32 w) (key_version w) (errno w) s (stderr w)
           (calls w) (progname w).
Definition set_stderr (w : world) (s : string) : world :=
  mk_world (hsm_secret w) (bip32 w) (key_version w) (errno w) (stdout w) s
           (calls w) (progname w).
Definition set_calls (w : world) (c : list call) : world :=
  mk_world (hsm_secret w) (bip32 w) (key_version w) (errno w) (stdout w)
           (stderr w) c (progname w).
Definition set_progname (w : world) (name : string) : world :=
  mk_world (hsm_secret w) (bip32 w) (key_version w) (errno w) (stdout w)
           (stderr w) (calls w) name.

(** *** A monad for code that may [exit], [abort] or loop *)

Inductive result (A : Type) :=
| Ret (a : A) (w : world)       (* the function returned *)
| Exit (code : Z) (w : world)   (* exit(code) was called *)
| Abort (w : world)             (* a failed assert *)
| OutOfFuel.                      (* out of fuel *)
Arguments Ret {A}.
Arguments Exit {A}.
Arguments Abort {A}.
Arguments OutOfFuel {A}.

Definition M (A : Type) : Type := world -> result A.

Definition ret {A} (a : A) : M A := fun w => Ret a w.

Definition bind {A B} (m : M A) (f : A -> M B) : M B :=
  fun w =>
    match m w with
    | Ret a w' => f a w'
    | Exit c w' => Exit c w'
    | Abort w' => Abort w'
    | OutOfFuel => OutOfFuel
    end.

Notation "x <- m ;; k" := (bind m (fun x => k))
  (at level 61, m at next level, right associativity).
Notation "m ;;; k" := (bind m (fun _ => k))
  (at level 61, right associativity).

Definition gets {A} (f : world -> A) : M A := fun w => Ret (f w) w.
Definition modify (f : world -> world) : M unit := fun w => Ret tt (f w).
Definition exit {A} (code : Z) : M A := fun w => Exit code w.
Definition abort {A} : M A := fun w => Abort w.
Definition out_of_fuel {A} : M A := fun _ => OutOfFuel.
Definition log (c : call) : M unit :=
  modify (fun w => set_calls w (calls w ++ [c])).
Definition fprintf_stderr (s : string) : M unit :=
  modify (fun w => set_stderr w (stderr w ++ s)%string).
Definition printf (s : string) : M unit :=
  modify (fun w => set_stdout w (stdout w ++ s)%string).

(** [assert(e)] on line [line] of function [func], [expr] being the text
    of [e]: when [e] is false the diagnostic of the C library goes to
    standard error and the process is aborted. *)
Definition assert (line : Z) (func expr : string) (b : bool) : M unit :=
  if b then ret tt
  else name <- gets progname ;;
       fprintf_stderr (assert_message name line func expr) ;;;
       abort.

(** [fatal(fmt, ...)]: the message, a line break, [exit(1)]. *)
Definition fatal {A} (msg : string) : M A :=
  fprintf_stderr (msg ++ String "010" "")%string ;;; exit 1.

(** [fatal1(...)]: the message as it is, [exit(1)]. *)
Definition fatal1 {A} (msg : string) : M A :=
  fprintf_stderr msg ;;; exit 1.

(** *** [populate_secretstuff] *)

(** The [do ... while] loop: whiten with the current salt, bump the salt,
    try to build the master key; leave with the key once the library
    accepts the seed. *)
Fixpoint seed_loop (fuel : nat) (ctx : secp256k1_context) (salt : Z)
  : M ext_key :=
  match fuel with
  | O => out_of_fuel
  | S fuel' =>
      secret <- gets hsm_secret ;;
      let info := list_byte_of_string "bip32 seed"%string in
      log (Call_hkdf_sha256 32 (u32_le_bytes salt) secret info) ;;;
      let bip32_seed := hkdf_sha256 32 (u32_le_bytes salt) secret info in
      let salt := u32_incr salt in
      v <- gets (fun w => bip32_privkey_version (key_version w)) ;;
      log (Call_bip32_key_from_seed bip32_seed v 0) ;;;
      let '(r, master_extkey) := bip32_key_from_seed ctx bip32_seed v 0 in
      if negb (r =? WALLY_OK) then seed_loop fuel' ctx salt
      else ret master_extkey
  end.

Definition populate_secretstuff (fuel : nat) : M unit :=
  let flags := Z.lor SECP256K1_CONTEXT_VERIFY SECP256K1_CONTEXT_SIGN in
  let ctx := secp256k1_context_create flags in
  modify (fun w => set_key_version w
            (mk_key_version BIP32_VER_MAIN_PUBLIC BIP32_VER_MAIN_PRIVATE)) ;;;
  kv <- gets key_version ;;
  assert 75 "populate_secretstuff"
         "bip32_key_version.bip32_pubkey_version == BIP32_VER_MAIN_PUBLIC || bip32_key_version.bip32_pubkey_version == BIP32_VER_TEST_PUBLIC"
         ((bip32_pubkey_version kv =? BIP32_VER_MAIN_PUBLIC)
          || (bip32_pubkey_version kv =? BIP32_VER_TEST_PUBLIC)) ;;;
  assert 78 "populate_secretstuff"
         "bip32_key_version.bip32_privkey_version == BIP32_VER_MAIN_PRIVATE || bip32_key_version.bip32_privkey_version == BIP32_VER_TEST_PRIVATE"
         ((bip32_privkey_version kv =? BIP32_VER_MAIN_PRIVATE)
          || (bip32_privkey_version kv =? BIP32_VER_TEST_PRIVATE)) ;;;
  master_extkey <- seed_loop fuel ctx 0 ;;
  log (Call_bip32_key_from_parent master_extkey 0 BIP32_FLAG_KEY_PRIVATE) ;;;
  let '(r1, child_extkey) :=
    bip32_key_from_parent ctx master_extkey 0 BIP32_FLAG_KEY_PRIVATE in
  (if negb (r1 =? WALLY_OK)
   then fatal1 "Can't derive child bip32 key"%string else ret tt) ;;;
  log (Call_bip32_key_from_parent child_extkey 0 BIP32_FLAG_KEY_PRIVATE) ;;;
  let '(r2, out) :=
    bip32_key_from_parent ctx child_extkey 0 BIP32_FLAG_KEY_PRIVATE in
  modify (fun w => set_bip32 w out) ;;;
  (if negb (r2 =? WALLY_OK)
   then fatal1 "Can't derive private bip32 key"%string else ret tt).

(** *** [load_hsm] *)

(** [secretfile] may be a null pointer: [None].  The descriptor lives from
    [open] to [close] inside this function, so it is not part of [world]. *)
Definition load_hsm (fuel : nat) (env : environment)
           (secretfile : option string) : M unit :=
  let path := match secretfile with Some p => p | None => "hsm_secret"%string end in
  log (Call_open path) ;;;
  match fs env path with
  | inl e =>
      modify (fun w => set_errno w e) ;;;
      fatal ("opening: " ++ strerror e)%string
  | inr contents =>
      fun w =>
        let st := mk_io (mk_open_file contents 0 (sched env))
                        (errno w) (hsm_secret w) in
        match read_all fuel st 0 32 with
        | None => OutOfFuel
        | Some (ok, st') =>
            let w' := set_errno (set_hsm_secret w (io_mem st')) (io_errno st') in
            if negb ok
            then fatal ("reading: " ++ strerror (io_errno st'))%string w'
            else populate_secretstuff fuel w'
        end
  end.

(** *** [dump_xpriv] *)

(** The table of output variants; one is active. *)
Definition versions : list (string * Z) :=
  [ ("standard"%string, BIP32_VER_MAIN_PRIVATE) ].

(** The body of the [for] loop over [versions].  Two statements of the
    source leave no trace here: [*ver = versions[i]] copies a table entry
    onto itself, and [wally_free_string] wipes and releases the string
    after it has been printed.  The return value of
    [wally_base58_from_bytes] is not looked at. *)
Definition dump_version (ver : string * Z) : M unit :=
  modify (fun w => set_bip32 w (set_version (bip32 w) (snd ver))) ;;;
  modify (fun w => set_bip32 w (set_depth (bip32 w) 0)) ;;;
  modify (fun w => set_bip32 w
            (set_parent160 (bip32 w) (Vector.const x00 20))) ;;;
  key <- gets bip32 ;;
  log (Call_bip32_key_serialize key BIP32_FLAG_KEY_PRIVATE) ;;;
  let r := bip32_key_serialize key BIP32_FLAG_KEY_PRIVATE
                               BIP32_SERIALIZED_LEN in
  assert 189 "dump_xpriv" "ret == WALLY_OK"
         (match r with Some _ => true | None => false end) ;;;
  let buf := match r with Some b => b | None => [] end in
  log (Call_wally_base58_from_bytes buf BASE58_FLAG_CHECKSUM) ;;;
  let out := wally_base58_from_bytes buf BASE58_FLAG_CHECKSUM in
  printf (out ++ String "010" "")%string.

Fixpoint for_each {A} (body : A -> M unit) (l : list A) : M unit :=
  match l with
  | [] => ret tt
  | a :: l' => body a ;;; for_each body l'
  end.

Definition dump_xpriv (fuel : nat) (env : environment)
           (secretfile : option string) : M Z :=
  modify (fun w => set_bip32 w (set_version (bip32 w) BIP32_VER_MAIN_PRIVATE)) ;;;
  modify (fun w => set_key_version w
            (mk_key_version BIP32_VER_MAIN_PUBLIC BIP32_VER_MAIN_PRIVATE)) ;;;
  load_hsm fuel env secretfile ;;;
  for_each dump_version versions ;;;
  ret 0.

(** *** [usage] and [main] *)

Definition usage {A} : M A :=
  fprintf_stderr
    ("usage: clightning-dumpkeys <hsmd_secretfile>" ++ String "010" "")%string ;;;
  exit 42.

Definition main (fuel : nat) (env : environment) : M Z :=
  let argc := length (argv env) in
  (if negb (argc =? 2)%nat then usage else ret tt) ;;;
  let secretfile := nth_error (argv env) 1 in
  dump_xpriv fuel env secretfile ;;;
  ret 0.

(** *** Running the process *)

(** Objects of static storage start out zeroed; nothing has been
    written. *)
Definition zero_key : ext_key :=
  mk_ext_key (Vector.const x00 32) (Vector.const x00 20) 0
             (Vector.const x00 33) 0 0 (Vector.const x00 33).

Definition initial_world : world :=
  mk_world (repeat x00 32) zero_key (mk_key_version 0 0) 0 ""%string ""%string []
           ""%string.

(** The name the program was started under. *)
Definition program_name (env : environment) : string :=
  hd ""%string (argv env).

(** The C runtime notes that name before it enters [main]. *)
Definition process_start (env : environment) : world :=
  set_progname initial_world (program_name env).

Inductive status :=
| Exited (code : Z)
| Aborted.

(** How a run ended and the state it left; [None] when [fuel] iterations
    were not enough for one of the loops. *)
Definition run (fuel : nat) (env : environment) : option (status * world) :=
  match main fuel env (process_start env) with
  | Ret code w => Some (Exited code, w)
  | Exit code w => Some (Exited code, w)
  | Abort w => Some (Aborted, w)
  | OutOfFuel => None
  end.

End Program.

Arguments Ret {A}.
Arguments Exit {A}.
Arguments Abort {A}.
Arguments OutOfFuel {A}.

End Dumpkeys.

(* ================================================================== *)
(** ** Test doubles of the library *)
(* ================================================================== *)

Module Mock.

Import Bytes Wally Dumpkeys.

(** The first [n] cells of [l], padded with zero bytes. *)
Fixpoint vec_of (n : nat) (l : list byte) : Vector.t byte n :=
  match n with
  | O => Vector.nil byte
  | S n' => Vector.cons byte (List.hd x00 l) n' (vec_of n' (List.tl l))
  end.

(** A stand-in for HKDF: the salt, then the key material, cut to size. *)
Definition hkdf (okm_size : nat) (salt ikm info : list byte) : list byte :=
  firstn okm_size (salt ++ ikm ++ repeat x00 okm_size).

(** A stand-in for master-key construction that turns down the seeds made
    with a salt in [rejects], as a harness for the retry loop would. *)
Definition from_seed (rejects : Z -> bool) (_ : unit) (seed : list byte)
           (version flags : Z) : Z * ext_key :=
  if rejects (le_value (firstn 4 seed)) then (-1, zero_key)
  else (0, mk_ext_key (vec_of 32 (skipn 4 seed)) (Vector.const x00 20) 0
                      (vec_of 33 (x00 :: seed)) 0 version
                      (Vector.const x02 33)).

(** A stand-in for child derivation: one level deeper, a parent hash that
    is not zero; fails on a parent at depth [fail_depth]. *)
Definition from_parent (fail_depth : Z) (_ : unit) (parent : ext_key)
           (child_num flags : Z) : Z * ext_key :=
  if depth parent =? fail_depth then (-1, parent)
  else (0, mk_ext_key (chain_code parent) (Vector.const xff 20)
                      (depth parent + 1) (priv_key parent) child_num
                      (version parent) (pub_key parent)).

Definition describe (e : Z) : string :=
  if e =? 2 then "No such file or directory"%string
  else if e =? 5 then "Input/output error"%string
  else "Unknown error"%string.

Definition decimal (n : Z) : string :=
  string_of_list_ascii
    (map (fun d => ascii_of_N (48 + d)) (Radix.digits 10 (Z.to_N n))).

(** What follows the last slash of a path. *)
Definition short_name (path : string) : string :=
  string_of_list_ascii
    (fold_left (fun acc c => if Ascii.eqb c "/" then [] else acc ++ [c])
               (list_ascii_of_string path) []).

(** The diagnostic in the format of the GNU C library. *)
Definition assertion_failed (name : string) (line : Z) (func expr : string)
  : string :=
  (short_name name ++ ": clightning-dumpkeys.c:" ++ decimal line ++ ": "
     ++ func ++ ": Assertion `" ++ expr ++ "' failed."
     ++ String "010" "")%string.

(** Seeds whose salt is in [rejects] are turned down; derivation fails at
    [fail_depth] (never, if negative); [serial_ok] tells whether keys
    serialize. *)
Definition lib (rejects : Z -> bool) (fail_depth : Z) (serial_ok : bool) : Lib :=
  {| WALLY_OK := 0;
     BIP32_FLAG_KEY_PRIVATE := 0;
     BIP32_VER_TEST_PUBLIC := 0x043587CF;
     BIP32_VER_TEST_PRIVATE := 0x04358394;
     BASE58_FLAG_CHECKSUM := 1;
     secp256k1_context := unit;
     SECP256K1_CONTEXT_VERIFY := 0x0101;
     SECP256K1_CONTEXT_SIGN := 0x0201;
     secp256k1_context_create := fun _ => tt;
     hkdf_sha256 := hkdf;
     bip32_key_from_seed := from_seed rejects;
     bip32_key_from_parent := from_parent fail_depth;
     serializable := fun _ _ => serial_ok;
     sha256 := vec_of 32;
     EINTR := 4;
     strerror := describe;
     assert_message := assertion_failed |}.

(** A secret file of 32 bytes, 0x01 0x02 ... 0x20. *)
Definition secret32 : list byte :=
  map (fun k => byte_of_Z (Z.of_nat k)) (seq 1 32).

(** One file, under the name [hsm_secret]; anything else does not exist. *)
Definition fs_with (contents : list byte) (path : string) : Z + list byte :=
  if String.eqb path "hsm_secret" then inr contents else inl 2.

Definition env_of (args : list string) (contents : list byte)
           (schedule : list read_event) : environment :=
  mk_environment args (fs_with contents) schedule.

Definition argv2 : list string :=
  ["clightning-dumpkeys"%string; "hsm_secret"%string].

(** The library as a harness would set it up: the first two seeds are
    turned down, everything else works. *)
Definition harness : Lib := lib (fun salt => salt <? 2) (-1) true.

(** The same, with the second child derivation failing. *)
Definition failing_harness : Lib := lib (fun salt => salt <? 2) 1 true.

End Mock.

(* ================================================================== *)
(** ** Properties of the program *)
(* ================================================================== *)

Import Bytes Wally Dumpkeys.

Section ReadAll.

Context {L : Lib}.

(** A call of [read] that fails with [EINTR]. *)
Definition interrupted (ev : read_event) : bool :=
  match ev with
  | RdErr e => e =? EINTR
  | RdChunk _ => false
  end.

(** The same state, the interrupted calls left out of the schedule. *)
Definition without_eintr (st : io) : io :=
  mk_io (mk_open_file (f_data (io_file st)) (f_pos (io_file st))
                      (filter (fun ev => negb (interrupted ev))
                              (f_sched (io_file st))))
        (io_errno st) (io_mem st).

(** Bytes consumed from the descriptor between two states. *)
Definition consumed (st st' : io) : nat :=
  (f_pos (io_file st') - f_pos (io_file st))%nat.

Lemma splice_nil (buf : list byte) (off : nat) : splice buf off [] = buf.
Proof.
  unfold splice. cbn [length app]. rewrite Nat.add_0_r.
  apply firstn_skipn.
Qed.

Lemma splice_splice (buf a b : list byte) (off : nat) :
  (off + length a <= length buf)%nat ->
  splice (splice buf off a) (off + length a) b = splice buf off (a ++ b).
Proof.
  intros H. unfold splice.
  set (P := firstn off buf).
  set (S1 := skipn (off + length a) buf).
  assert (HP : length P = off) by (subst P; rewrite length_firstn; lia).
  assert (HPa : length (P ++ a) = (off + length a)%nat)
    by (rewrite length_app; lia).
  rewrite (app_assoc P a S1).
  rewrite <- HPa at 1.
  rewrite <- (Nat.add_0_r (length (P ++ a))) at 1.
  rewrite firstn_app_2. cbn [firstn]. rewrite app_nil_r.
  rewrite skipn_app.
  rewrite (skipn_all2 (P ++ a)) by lia.
  cbn [app]. rewrite HPa.
  replace (off + length a + length b - (off + length a))%nat
    with (length b) by lia.
  subst S1. rewrite skipn_skipn, length_app.
  rewrite <- !app_assoc.
  do 4 f_equal. lia.
Qed.

Lemma firstn_add {A} (a b : nat) (l : list A) :
  firstn (a + b) l = firstn a l ++ firstn b (skipn a l).
Proof.
  revert l. induction a as [|a IH]; intros l; [reflexivity|].
  destruct l as [|x l]; cbn.
  - now rewrite firstn_nil.
  - now rewrite IH.
Qed.

Lemma unread_advance (f : open_file) (n : nat) (s : list read_event) :
  unread (mk_open_file (f_data f) (f_pos f + n) s) = skipn n (unread f).
Proof.
  unfold unread. cbn. rewrite skipn_skipn. f_equal. lia.
Qed.

(** What one call of [read] does. *)
Inductive read_outcome (st : io) (data size : nat) : Z -> io -> Prop :=
| read_failed e s :
    f_sched (io_file st) = RdErr e :: s ->
    read_outcome st data size (-1)
      (mk_io (mk_open_file (f_data (io_file st)) (f_pos (io_file st)) s)
             e (io_mem st))
| read_some n s :
    s = tl (f_sched (io_file st)) ->
    (forall e s', f_sched (io_file st) <> RdErr e :: s') ->
    (n <= size)%nat ->
    (n <= length (unread (io_file st)))%nat ->
    (n = 0%nat -> size = 0%nat \/ unread (io_file st) = []) ->
    (f_sched (io_file st) = [] -> n = Nat.min size (length (unread (io_file st)))) ->
    read_outcome st data size (Z.of_nat n)
      (mk_io (mk_open_file (f_data (io_file st)) (f_pos (io_file st) + n) s)
             (io_errno st)
             (splice (io_mem st) data (firstn n (unread (io_file st))))).

Lemma sys_read_outcome (st : io) (data size : nat) :
  read_outcome st data size (fst (sys_read st data size))
               (snd (sys_read st data size)).
Proof.
  unfold sys_read.
  destruct (f_sched (io_file st)) as [|[e|k] s] eqn:E; cbn [fst snd].
  - set (bs := firstn size (unread (io_file st))).
    assert (Hlen : length bs = Nat.min size (length (unread (io_file st))))
      by apply length_firstn.
    assert (Hbs : bs = firstn (length bs) (unread (io_file st))).
    { rewrite Hlen, <- firstn_firstn, firstn_all. reflexivity. }
    rewrite Hbs at 3.
    apply read_some; rewrite ?E; try reflexivity; try congruence; try lia.
    intros H0. destruct size; [now left|right].
    destruct (unread (io_file st)); [reflexivity|cbn in *; lia].
  - now apply read_failed.
  - set (bs := firstn (Nat.min (S k) size) (unread (io_file st))).
    assert (Hlen : length bs
                   = Nat.min (Nat.min (S k) size) (length (unread (io_file st))))
      by apply length_firstn.
    assert (Hbs : bs = firstn (length bs) (unread (io_file st))).
    { rewrite Hlen, <- firstn_firstn, firstn_all. reflexivity. }
    rewrite Hbs at 3.
    apply read_some; rewrite ?E; try reflexivity; try congruence; try lia.
    intros H0. destruct size; [now left|right].
    destruct (unread (io_file st)); [reflexivity|cbn in *; lia].
Qed.

(** What [read_all] promises about the state it leaves. *)
Definition read_all_post (st : io) (data size : nat) (b : bool) (st' : io)
  : Prop :=
  let n := consumed st st' in
  f_data (io_file st') = f_data (io_file st)
  /\ (f_pos (io_file st) <= f_pos (io_file st'))%nat
  /\ (n <= size)%nat
  /\ (n <= length (unread (io_file st)))%nat
  /\ io_mem st' = splice (io_mem st) data (firstn n (unread (io_file st)))
  /\ (b = true <-> n = size)
  /\ (b = false ->
      unread (io_file st') = []
      \/ (io_errno st' <> EINTR
          /\ In (RdErr (io_errno st')) (f_sched (io_file st)))).

Lemma in_tl {A} (x : A) (l : list A) : In x (tl l) -> In x l.
Proof. destruct l; [easy | now right]. Qed.

Lemma read_all_sound (fuel : nat) :
  forall st data size b st',
    read_all fuel st data size = Some (b, st') ->
    (data + size <= length (io_mem st))%nat ->
    read_all_post st data size b st'.
Proof.
  induction fuel as [|fuel IH]; intros st data size b st' Hrun Hbuf;
    [discriminate|].
  cbn [read_all] in Hrun.
  destruct (Nat.eqb_spec size 0) as [->|Hsz].
  { injection Hrun as <- <-. unfold read_all_post, consumed.
    rewrite Nat.sub_diag. cbn [firstn]. rewrite splice_nil.
    repeat split; try lia; try reflexivity; try discriminate. }
  pose proof (sys_read_outcome st data size) as Hout.
  destruct (sys_read st data size) as [done st1]. cbn [fst snd] in Hout.
  inversion Hout as [e s Hs Hd Hst1 | n s Hs Hne Hn HnU Hn0 _ Hd Hst1];
    subst done; clear Hout.
  - (* the call failed *)
    change (-1 <? 0) with true in Hrun. cbn [andb] in Hrun.
    rewrite <- Hst1 in Hrun. cbn [io_errno] in Hrun.
    destruct (Z.eqb_spec e EINTR) as [He|He].
    + (* interrupted: once more *)
      rewrite Hst1 in Hrun.
      apply IH in Hrun; [|subst st1; exact Hbuf].
      subst st1. unfold read_all_post, consumed, unread in *. cbn in *.
      destruct Hrun as (H1 & H2 & H3 & H4 & H5 & H6 & H7).
      repeat split; try assumption; try apply H6.
      intros Hb. destruct (H7 Hb) as [?|[? ?]]; [now left|right].
      split; [assumption|]. rewrite Hs. now right.
    + change (-1 <=? 0) with true in Hrun.
      injection Hrun as <- <-.
      unfold read_all_post, consumed. cbn.
      rewrite Nat.sub_diag. cbn [firstn]. rewrite splice_nil.
      repeat split; try lia; try discriminate.
      intros _. right. split; [exact He|]. rewrite Hs. now left.
  - (* the call delivered [n] bytes *)
    destruct (Z.ltb_spec (Z.of_nat n) 0) as [?|_]; [lia|].
    cbn [andb] in Hrun.
    destruct (Z.leb_spec (Z.of_nat n) 0) as [Hle|Hgt].
    + (* nothing: end of file *)
      assert (n = 0%nat) by lia. subst n.
      injection Hrun as <- <-. subst st1.
      unfold read_all_post, consumed. cbn.
      replace (f_pos (io_file st) + 0 - f_pos (io_file st))%nat with 0%nat by lia.
      repeat split; try lia; try discriminate.
      intros _. left.
      destruct (Hn0 eq_refl) as [?|HU]; [contradiction|].
      unfold unread in *. cbn. now rewrite Nat.add_0_r.
    + rewrite Nat2Z.id in Hrun.
      assert (Hlen : length (firstn n (unread (io_file st))) = n)
        by (rewrite length_firstn; lia).
      apply IH in Hrun.
      2:{ subst st1. cbn [io_mem]. rewrite length_splice; rewrite ?Hlen; lia. }
      subst st1. unfold read_all_post, consumed in *.
      cbn [io_file io_mem io_errno f_pos f_data f_sched] in Hrun.
      rewrite unread_advance in Hrun.
      destruct Hrun as (H1 & H2 & H3 & H4 & H5 & H6 & H7).
      rewrite length_skipn in H4.
      set (c := (f_pos (io_file st') - (f_pos (io_file st) + n))%nat) in *.
      assert (Hc : (f_pos (io_file st') - f_pos (io_file st))%nat = (n + c)%nat)
        by (subst c; lia).
      rewrite Hc.
      repeat split; try assumption; try lia.
      * rewrite H5. rewrite <- Hlen at 2.
        rewrite splice_splice by (rewrite Hlen; lia).
        now rewrite firstn_add.
      * intros Hb. apply H6 in Hb. lia.
      * intros Hb. apply H6. lia.
      * intros Hb. destruct (H7 Hb) as [?|[? Hin]]; [now left|right].
        split; [assumption|]. apply in_tl. now rewrite <- Hs.
Qed.

Lemma read_all_terminates (fuel : nat) :
  forall st data size,
    (length (f_sched (io_file st)) + size < fuel)%nat ->
    exists r, read_all fuel st data size = Some r.
Proof.
  induction fuel as [|fuel IH]; intros st data size Hfuel; [lia|].
  cbn [read_all].
  destruct (Nat.eqb_spec size 0) as [->|Hsz]; [eauto|].
  pose proof (sys_read_outcome st data size) as Hout.
  destruct (sys_read st data size) as [done st1]. cbn [fst snd] in Hout.
  inversion Hout as [e s Hs Hd Hst1 | n s Hs Hne Hn HnU Hn0 Hn1 Hd Hst1];
    subst done; clear Hout.
  - change (-1 <? 0) with true. change (-1 <=? 0) with true. cbn [andb io_errno].
    destruct (e =? EINTR); [|eauto].
    apply IH. cbn. rewrite Hs in Hfuel. cbn in Hfuel. lia.
  - destruct (Z.ltb_spec (Z.of_nat n) 0) as [?|_]; [lia|].
    cbn [andb].
    destruct (Z.leb_spec (Z.of_nat n) 0) as [Hle|Hgt]; [eauto|].
    rewrite Nat2Z.id. apply IH. cbn. subst s.
    destruct (f_sched (io_file st)); cbn in *; lia.
Qed.

Lemma read_all_more_fuel (fuel : nat) :
  forall fuel' st data size r,
    read_all fuel st data size = Some r ->
    (fuel <= fuel')%nat ->
    read_all fuel' st data size = Some r.
Proof.
  induction fuel as [|fuel IH]; intros fuel' st data size r Hrun Hle;
    [discriminate|].
  destruct fuel' as [|fuel']; [lia|].
  cbn [read_all] in *.
  destruct (size =? 0)%nat; [exact Hrun|].
  destruct (sys_read st data size) as [done st1].
  destruct ((done <? 0) && (io_errno st1 =? EINTR)).
  - apply IH; [exact Hrun | lia].
  - destruct (done <=? 0); [exact Hrun|].
    apply IH; [exact Hrun | lia].
Qed.

(** Interrupted calls are invisible in the result: the run on the schedule
    without them returns the same value and leaves the same buffer and
    the same offset, whatever [errno] was before. *)
Lemma read_all_skips_eintr (fuel : nat) :
  forall d p sch e m e2 data size b st',
    read_all fuel (mk_io (mk_open_file d p sch) e m) data size = Some (b, st') ->
    exists st2,
      read_all fuel
        (mk_io (mk_open_file d p (filter (fun ev => negb (interrupted ev)) sch))
               e2 m) data size = Some (b, st2)
      /\ io_mem st2 = io_mem st'
      /\ f_pos (io_file st2) = f_pos (io_file st').
Proof.
  induction fuel as [|fuel IH]; intros d p sch e m e2 data size b st' Hrun;
    [discriminate|].
  cbn [read_all] in *.
  destruct (size =? 0)%nat eqn:Esz.
  { injection Hrun as <- <-. eexists. split; [reflexivity|]. now cbn. }
  destruct sch as [|[e1|k] sch]; unfold sys_read in *;
    cbn [io_file f_sched f_data f_pos io_errno io_mem filter interrupted] in *.
  - (* schedule used up *)
    destruct ((Z.of_nat _ <? 0) && (e =? EINTR)) eqn:E1.
    { apply andb_true_iff in E1 as [E1 _]. apply Z.ltb_lt in E1. lia. }
    destruct ((Z.of_nat (length (firstn size (unread (mk_open_file d p []))))
                 <? 0) && (e2 =? EINTR)) eqn:E2.
    { apply andb_true_iff in E2 as [E2 _]. apply Z.ltb_lt in E2. lia. }
    destruct (Z.of_nat _ <=? 0).
    + injection Hrun as <- <-. eexists. split; [reflexivity|]. now cbn.
    + apply (IH _ _ [] _ _ e2) in Hrun. exact Hrun.
  - (* an error *)
    change (-1 <? 0) with true in *. change (-1 <=? 0) with true in *.
    cbn [andb] in *.
    destruct (e1 =? EINTR) eqn:E1; cbn [negb].
    + apply (IH _ _ _ _ _ e2) in Hrun. destruct Hrun as (st2 & Hrun & Hm & Hp).
      exists st2. split; [|now split].
      apply read_all_more_fuel with (fuel' := S fuel) in Hrun; [|lia].
      cbn [read_all] in Hrun. rewrite Esz in Hrun. exact Hrun.
    + cbn [io_file f_sched f_data f_pos io_errno io_mem]. rewrite E1.
      injection Hrun as <- <-. eexists. split; [reflexivity|]. now cbn.
  - (* some bytes *)
    cbn [negb].
    cbn [io_file f_sched f_data f_pos io_errno io_mem].
    set (bs := firstn (Nat.min (S k) size) (unread (mk_open_file d p (RdChunk k :: sch)))) in *.
    change (unread (mk_open_file d p
              (RdChunk k :: filter (fun ev => negb (interrupted ev)) sch)))
      with (unread (mk_open_file d p (RdChunk k :: sch))).
    fold bs.
    destruct ((Z.of_nat (length bs) <? 0) && (e =? EINTR)) eqn:E1.
    { apply andb_true_iff in E1 as [E1 _]. apply Z.ltb_lt in E1. lia. }
    destruct ((Z.of_nat (length bs) <? 0) && (e2 =? EINTR)) eqn:E2.
    { apply andb_true_iff in E2 as [E2 _]. apply Z.ltb_lt in E2. lia. }
    destruct (Z.of_nat (length bs) <=? 0).
    + injection Hrun as <- <-. eexists. split; [reflexivity|]. now cbn.
    + apply (IH _ _ _ _ _ e2) in Hrun. exact Hrun.
Qed.

(** C9. [read_all(fd, data, size)] returns, and it returns true if and only
    if it has copied exactly [size] bytes from the descriptor into the
    buffer.  Whatever it returns, the bytes consumed are the ones copied, in
    order, to [data]: on failure a proper prefix of the window is
    overwritten.  It fails only at end of file or on an error other than
    [EINTR], and a call interrupted by [EINTR] is repeated without a trace
    in the result. *)
Theorem read_all_correct (st : io) (data size : nat) :
  (data + size <= length (io_mem st))%nat ->
  exists b st',
    (forall fuel,
        (length (f_sched (io_file st)) + size < fuel)%nat ->
        read_all fuel st data size = Some (b, st'))
    /\ (b = true <-> consumed st st' = size)
    /\ (b = false -> (consumed st st' < size)%nat)
    /\ io_mem st'
       = splice (io_mem st) data
                (firstn (consumed st st') (unread (io_file st)))
    /\ (b = false ->
        unread (io_file st') = []
        \/ (io_errno st' <> EINTR
            /\ In (RdErr (io_errno st')) (f_sched (io_file st))))
    /\ (forall e s,
          f_sched (io_file st) = RdErr e :: s -> e <> EINTR -> size <> 0%nat ->
          b = false /\ io_mem st' = io_mem st /\ io_errno st' = e)
    /\ (unread (io_file st) = [] -> size <> 0%nat -> b = false)
    /\ (forall fuel,
          (length (f_sched (io_file st)) + size < fuel)%nat ->
          exists st2,
            read_all fuel (without_eintr st) data size = Some (b, st2)
            /\ io_mem st2 = io_mem st'
            /\ f_pos (io_file st2) = f_pos (io_file st')).
Proof.
  intros Hbuf.
  destruct (read_all_terminates (S (length (f_sched (io_file st)) + size))
              st data size ltac:(lia)) as [[b st'] Hrun].
  exists b, st'.
  assert (Hany : forall fuel,
             (length (f_sched (io_file st)) + size < fuel)%nat ->
             read_all fuel st data size = Some (b, st')).
  { intros fuel Hf. apply read_all_more_fuel with (1 := Hrun). lia. }
  pose proof (read_all_sound _ _ _ _ _ _ Hrun Hbuf)
    as (H1 & H2 & H3 & H4 & H5 & H6 & H7).
  split; [exact Hany|].
  split; [exact H6|].
  split.
  { intros ->. fold (consumed st st') in H3.
    assert (consumed st st' <> size) by (intros E; apply H6 in E; discriminate).
    lia. }
  split; [exact H5|].
  split; [exact H7|].
  split.
  { intros e s Hs He Hsz.
    cbn [read_all] in Hrun.
    destruct (Nat.eqb_spec size 0) as [?|_]; [contradiction|].
    unfold sys_read in Hrun. rewrite Hs in Hrun.
    change (-1 <? 0) with true in Hrun. change (-1 <=? 0) with true in Hrun.
    cbn [andb io_errno] in Hrun.
    destruct (Z.eqb_spec e EINTR); [contradiction|].
    injection Hrun as <- <-. now cbn. }
  split.
  { intros HU Hsz. destruct b; [|reflexivity].
    fold (consumed st st') in H4. rewrite HU in H4. cbn in H4.
    assert (E : consumed st st' = size) by now apply H6.
    lia. }
  intros fuel Hf.
  specialize (Hany fuel Hf).
  destruct st as [[d p sch] e m].
  apply (read_all_skips_eintr _ _ _ _ _ _ e) in Hany.
  exact Hany.
Qed.

End ReadAll.

Section Pipeline.

Context {L : Lib}.

(** The signing context [populate_secretstuff] creates. *)
Definition ctx0 : secp256k1_context :=
  secp256k1_context_create
    (Z.lor SECP256K1_CONTEXT_VERIFY SECP256K1_CONTEXT_SIGN).

Definition seed_info : list byte := list_byte_of_string "bip32 seed".

(** The value of [salt] when candidate number [k] (counting from 0) is
    made: [k] increments after the initial 0. *)
Definition salt_of_attempt (k : N) : Z := N.iter k u32_incr 0.

(** Candidate seed number [k] for a secret. *)
Definition candidate (secret : list byte) (k : nat) : list byte :=
  hkdf_sha256 32 (u32_le_bytes (salt_of_attempt (N.of_nat k))) secret seed_info.

Definition master_try (secret : list byte) (v : Z) (k : nat) : Z * ext_key :=
  bip32_key_from_seed ctx0 (candidate secret k) v 0.

Definition accepted (secret : list byte) (v : Z) (k : nat) : bool :=
  fst (master_try secret v k) =? WALLY_OK.

(** The library calls of attempt [k]. *)
Definition attempt_calls (secret : list byte) (v : Z) (k : nat) : list call :=
  [ Call_hkdf_sha256 32 (u32_le_bytes (salt_of_attempt (N.of_nat k)))
                     secret seed_info;
    Call_bip32_key_from_seed (candidate secret k) v 0 ].

(** The calls of attempts [0 .. n]. *)
Definition whitening_calls (secret : list byte) (v : Z) (n : nat) : list call :=
  flat_map (attempt_calls secret v) (seq 0 (S n)).

Lemma salt_of_attempt_succ (k : N) :
  salt_of_attempt (N.succ k) = u32_incr (salt_of_attempt k).
Proof. unfold salt_of_attempt. now rewrite N.iter_succ. Qed.

Lemma salt_of_attempt_mod (k : N) :
  salt_of_attempt k = Z.of_N k mod 2 ^ 32.
Proof.
  induction k as [|k IH] using N.peano_ind; [reflexivity|].
  rewrite salt_of_attempt_succ, IH.
  unfold u32_incr, wrap32, u32_modulus.
  rewrite Zplus_mod_idemp_l. f_equal. lia.
Qed.

(** One turn of the loop. *)
Lemma seed_loop_S (fuel : nat) (ctx : secp256k1_context) (salt : Z) (w : world) :
  seed_loop (S fuel) ctx salt w =
  let secret := hsm_secret w in
  let v := bip32_privkey_version (key_version w) in
  let seed := hkdf_sha256 32 (u32_le_bytes salt) secret seed_info in
  let w1 := set_calls w (calls w ++ [Call_hkdf_sha256 32 (u32_le_bytes salt)
                                       secret seed_info;
                                     Call_bip32_key_from_seed seed v 0]) in
  if fst (bip32_key_from_seed ctx seed v 0) =? WALLY_OK
  then Ret (snd (bip32_key_from_seed ctx seed v 0)) w1
  else seed_loop fuel ctx (u32_incr salt) w1.
Proof.
  cbn [seed_loop]. unfold bind, gets, log, modify, ret.
  cbn [hsm_secret key_version set_calls calls].
  change (list_byte_of_string "bip32 seed") with seed_info.
  cbv zeta.
  destruct (bip32_key_from_seed ctx _ _ 0) as [r master]. cbn [fst snd].
  rewrite <- app_assoc. cbn [app].
  destruct (r =? WALLY_OK); reflexivity.
Qed.

Lemma seed_loop_inv (fuel : nat) :
  forall k0 w,
    let secret := hsm_secret w in
    let v := bip32_privkey_version (key_version w) in
    match seed_loop fuel ctx0 (salt_of_attempt (N.of_nat k0)) w with
    | OutOfFuel =>
        forall j, (k0 <= j < k0 + fuel)%nat -> accepted secret v j = false
    | Ret key w' =>
        exists n,
          (n < fuel)%nat
          /\ (forall j, (k0 <= j < k0 + n)%nat -> accepted secret v j = false)
          /\ accepted secret v (k0 + n) = true
          /\ key = snd (master_try secret v (k0 + n))
          /\ w' = set_calls w (calls w ++ flat_map (attempt_calls secret v)
                                                  (seq k0 (S n)))
    | Exit _ _ | Abort _ => False
    end.
Proof.
  induction fuel as [|fuel IH]; intros k0 w secret v.
  - cbn [seed_loop]. unfold out_of_fuel. intros j Hj. lia.
  - rewrite seed_loop_S. cbv zeta.
    fold secret. fold v. fold (candidate secret k0).
    fold (master_try secret v k0). fold (accepted secret v k0).
    destruct (accepted secret v k0) eqn:Hacc.
    + exists 0%nat. rewrite Nat.add_0_r.
      repeat split; try lia; try assumption.
    + rewrite <- salt_of_attempt_succ, <- Nat2N.inj_succ.
      specialize (IH (S k0) (set_calls w
         (calls w ++ [Call_hkdf_sha256 32
              (u32_le_bytes (salt_of_attempt (N.of_nat k0))) secret seed_info;
              Call_bip32_key_from_seed (candidate secret k0) v 0]))).
      cbn [hsm_secret key_version set_calls calls] in IH.
      fold secret in IH. fold v in IH.
      destruct (seed_loop fuel ctx0 (salt_of_attempt (N.of_nat (S k0))) _)
        as [key w' | | |].
      * destruct IH as (n & Hn & Hrej & Hacc' & Hkey & Hw).
        exists (S n).
        replace (k0 + S n)%nat with (S k0 + n)%nat by lia.
        repeat split; try lia; try assumption.
        -- intros j Hj. destruct (Nat.eq_dec j k0) as [->|]; [assumption|].
           apply Hrej. lia.
        -- rewrite Hw. unfold set_calls.
           cbn [hsm_secret bip32 key_version errno stdout stderr calls].
           f_equal.
           cbn [seq flat_map attempt_calls]. rewrite <- !app_assoc. reflexivity.
      * exact IH.
      * exact IH.
      * intros j Hj. destruct (Nat.eq_dec j k0) as [->|]; [assumption|].
        apply IH. lia.
Qed.

(** Conversely, the loop gets to the first seed the library accepts. *)
Lemma seed_loop_run (fuel n : nat) (w : world) :
  let secret := hsm_secret w in
  let v := bip32_privkey_version (key_version w) in
  (n < fuel)%nat ->
  (forall j, (j < n)%nat -> accepted secret v j = false) ->
  accepted secret v n = true ->
  seed_loop fuel ctx0 0 w
  = Ret (snd (master_try secret v n))
        (set_calls w (calls w ++ whitening_calls secret v n)).
Proof.
  intros secret v Hn Hrej Hacc.
  pose proof (seed_loop_inv fuel 0 w) as H. cbv zeta in H.
  change (salt_of_attempt (N.of_nat 0)) with 0 in H.
  fold secret in H. fold v in H.
  destruct (seed_loop fuel ctx0 0 w) as [key w' | | |].
  - destruct H as (m & Hm & Hrej' & Hacc' & -> & ->). cbn [Nat.add] in *.
    assert (m = n).
    { destruct (Nat.lt_trichotomy m n) as [Hlt|[Heq|Hgt]]; [|exact Heq|].
      - rewrite (Hrej m Hlt) in Hacc'. discriminate.
      - rewrite (Hrej' n) in Hacc by lia. discriminate. }
    subst m. reflexivity.
  - contradiction.
  - contradiction.
  - rewrite (H n) in Hacc by lia. discriminate.
Qed.

(** *** The straight-line part, flattened *)

Definition main_pair : bip32_key_version :=
  mk_key_version BIP32_VER_MAIN_PUBLIC BIP32_VER_MAIN_PRIVATE.

(** One fixed-path derivation step: child 0, private derivation. *)
Definition derive (parent : ext_key) : Z * ext_key :=
  bip32_key_from_parent ctx0 parent 0 BIP32_FLAG_KEY_PRIVATE.

Definition derive_call (parent : ext_key) : call :=
  Call_bip32_key_from_parent parent 0 BIP32_FLAG_KEY_PRIVATE.

(** What [dump_xpriv] does to the key before serializing it. *)
Definition reroot (k : ext_key) (v : Z) : ext_key :=
  set_parent160 (set_depth (set_version k v) 0) (Vector.const x00 20).

Definition add_calls (w : world) (cs : list call) : world :=
  set_calls w (calls w ++ cs).

Definition add_stderr (w : world) (s : string) : world :=
  set_stderr w (stderr w ++ s)%string.

Definition add_stdout (w : world) (s : string) : world :=
  set_stdout w (stdout w ++ s)%string.

Definition newline : string := String "010" "".

Lemma populate_secretstuff_eq (fuel : nat) (w : world) :
  populate_secretstuff fuel w =
  match seed_loop fuel ctx0 0 (set_key_version w main_pair) with
  | Ret master w1 =>
      let w2 := add_calls w1 [derive_call master] in
      let d1 := derive master in
      if fst d1 =? WALLY_OK then
        let d2 := derive (snd d1) in
        let w3 := set_bip32 (add_calls w2 [derive_call (snd d1)]) (snd d2) in
        if fst d2 =? WALLY_OK then Ret tt w3
        else Exit 1 (add_stderr w3 "Can't derive private bip32 key")
      else Exit 1 (add_stderr w2 "Can't derive child bip32 key")
  | Exit c w' => Exit c w'
  | Abort w' => Abort w'
  | OutOfFuel => OutOfFuel
  end.
Proof.
  unfold populate_secretstuff.
  unfold bind at 1. unfold modify at 1.
  unfold bind at 1. unfold gets at 1.
  cbn [key_version set_key_version bip32_pubkey_version bip32_privkey_version].
  rewrite !Z.eqb_refl. cbn [orb].
  unfold bind at 1. unfold assert at 1. cbv iota. unfold ret at 1.
  unfold bind at 1. unfold assert at 1. cbv iota. unfold ret at 1.
  unfold bind at 1. fold ctx0. fold main_pair.
  destruct (seed_loop fuel ctx0 0 (set_key_version w main_pair))
    as [master w1 | | |]; try reflexivity.
  unfold bind, log, modify, fatal1, fprintf_stderr, exit, ret, modify.
  fold (derive master). cbv zeta.
  destruct (derive master) as [r1 child]. cbn [fst snd].
  destruct (r1 =? WALLY_OK); cbn [negb]; [|reflexivity].
  fold (derive child).
  destruct (derive child) as [r2 out]. cbn [fst snd].
  destruct (r2 =? WALLY_OK); reflexivity.
Qed.

(** *** How a run can end *)

Definition usage_text : string :=
  ("usage: clightning-dumpkeys <hsmd_secretfile>" ++ newline)%string.

(** The state when [load_hsm] is entered, and after its [open]. *)
Definition started (env : environment) : world :=
  mk_world (repeat x00 32) (set_version zero_key BIP32_VER_MAIN_PRIVATE)
           main_pair 0 "" "" [] (program_name env).

Definition opened (env : environment) (p : string) : world :=
  add_calls (started env) [Call_open p].

(** The descriptor as [open] returns it. *)
Definition open_io (env : environment) (contents : list byte) : io :=
  mk_io (mk_open_file contents 0 (sched env)) 0 (repeat x00 32).

(** The state after [read_all]. *)
Definition loaded (env : environment) (p : string) (st' : io) : world :=
  set_errno (set_hsm_secret (opened env p) (io_mem st')) (io_errno st').

(** Attempt [n] is the first the library accepts, within [fuel] turns. *)
Definition first_accepted (fuel : nat) (secret : list byte) (n : nat) : Prop :=
  (n < fuel)%nat
  /\ (forall j, (j < n)%nat -> accepted secret BIP32_VER_MAIN_PRIVATE j = false)
  /\ accepted secret BIP32_VER_MAIN_PRIVATE n = true.

Definition master_key (secret : list byte) (n : nat) : ext_key :=
  snd (master_try secret BIP32_VER_MAIN_PRIVATE n).

(** The state after the seed loop. *)
Definition whitened (env : environment) (p : string) (st' : io) (n : nat)
  : world :=
  add_calls (loaded env p st')
            (whitening_calls (io_mem st') BIP32_VER_MAIN_PRIVATE n).

(** The state after both derivations. *)
Definition derived (env : environment) (p : string) (st' : io) (n : nat)
  : world :=
  let master := master_key (io_mem st') n in
  let child := snd (derive master) in
  set_bip32 (add_calls (add_calls (whitened env p st' n) [derive_call master])
                       [derive_call child])
            (snd (derive child)).

(** The key that is printed. *)
Definition printed_key (secret : list byte) (n : nat) : ext_key :=
  reroot (snd (derive (snd (derive (master_key secret n)))))
         BIP32_VER_MAIN_PRIVATE.

Definition printed_line (secret : list byte) (n : nat) : string :=
  wally_base58_from_bytes
    (serialized (printed_key secret n) BIP32_FLAG_KEY_PRIVATE)
    BASE58_FLAG_CHECKSUM.

(** What the failed assert of [dump_xpriv] writes. *)
Definition serialize_assert (name : string) : string :=
  assert_message name 189 "dump_xpriv" "ret == WALLY_OK".

Inductive ending (fuel : nat) (env : environment) : status -> world -> Prop :=
| End_usage :
    length (argv env) <> 2%nat ->
    ending fuel env (Exited 42) (add_stderr (process_start env) usage_text)
| End_open p e :
    length (argv env) = 2%nat ->
    nth_error (argv env) 1 = Some p ->
    fs env p = inl e ->
    ending fuel env (Exited 1)
      (add_stderr (set_errno (opened env p) e)
                  ("opening: " ++ strerror e ++ newline))
| End_read p contents st' :
    length (argv env) = 2%nat ->
    nth_error (argv env) 1 = Some p ->
    fs env p = inr contents ->
    read_all fuel (open_io env contents) 0 32 = Some (false, st') ->
    ending fuel env (Exited 1)
      (add_stderr (loaded env p st')
                  ("reading: " ++ strerror (io_errno st') ++ newline))
| End_derive_child p contents st' n :
    length (argv env) = 2%nat ->
    nth_error (argv env) 1 = Some p ->
    fs env p = inr contents ->
    read_all fuel (open_io env contents) 0 32 = Some (true, st') ->
    first_accepted fuel (io_mem st') n ->
    (fst (derive (master_key (io_mem st') n)) =? WALLY_OK) = false ->
    ending fuel env (Exited 1)
      (add_stderr (add_calls (whitened env p st' n)
                             [derive_call (master_key (io_mem st') n)])
                  "Can't derive child bip32 key")
| End_derive_private p contents st' n :
    length (argv env) = 2%nat ->
    nth_error (argv env) 1 = Some p ->
    fs env p = inr contents ->
    read_all fuel (open_io env contents) 0 32 = Some (true, st') ->
    first_accepted fuel (io_mem st') n ->
    (fst (derive (master_key (io_mem st') n)) =? WALLY_OK) = true ->
    (fst (derive (snd (derive (master_key (io_mem st') n)))) =? WALLY_OK)
      = false ->
    ending fuel env (Exited 1)
      (add_stderr (derived env p st' n) "Can't derive private bip32 key")
| End_assert p contents st' n :
    length (argv env) = 2%nat ->
    nth_error (argv env) 1 = Some p ->
    fs env p = inr contents ->
    read_all fuel (open_io env contents) 0 32 = Some (true, st') ->
    first_accepted fuel (io_mem st') n ->
    (fst (derive (master_key (io_mem st') n)) =? WALLY_OK) = true ->
    (fst (derive (snd (derive (master_key (io_mem st') n)))) =? WALLY_OK)
      = true ->
    serializable (printed_key (io_mem st') n) BIP32_FLAG_KEY_PRIVATE = false ->
    ending fuel env Aborted
      (add_stderr
         (add_calls (set_bip32 (derived env p st' n)
                               (printed_key (io_mem st') n))
            [Call_bip32_key_serialize (printed_key (io_mem st') n)
                                      BIP32_FLAG_KEY_PRIVATE])
         (serialize_assert (program_name env)))
| End_success p contents st' n :
    length (argv env) = 2%nat ->
    nth_error (argv env) 1 = Some p ->
    fs env p = inr contents ->
    read_all fuel (open_io env contents) 0 32 = Some (true, st') ->
    first_accepted fuel (io_mem st') n ->
    (fst (derive (master_key (io_mem st') n)) =? WALLY_OK) = true ->
    (fst (derive (snd (derive (master_key (io_mem st') n)))) =? WALLY_OK)
      = true ->
    serializable (printed_key (io_mem st') n) BIP32_FLAG_KEY_PRIVATE = true ->
    ending fuel env (Exited 0)
      (add_stdout
         (add_calls
            (add_calls (set_bip32 (derived env p st' n) (printed_key (io_mem st') n))
               [Call_bip32_key_serialize (printed_key (io_mem st') n)
                                         BIP32_FLAG_KEY_PRIVATE])
            [Call_wally_base58_from_bytes
               (serialized (printed_key (io_mem st') n) BIP32_FLAG_KEY_PRIVATE)
               BASE58_FLAG_CHECKSUM])
         (printed_line (io_mem st') n ++ newline)).

Lemma dump_version_eq (name : string) (v : Z) (w : world) :
  dump_version (name, v) w =
  let key := reroot (bip32 w) v in
  let w1 := add_calls (set_bip32 w key)
              [Call_bip32_key_serialize key BIP32_FLAG_KEY_PRIVATE] in
  if serializable key BIP32_FLAG_KEY_PRIVATE then
    let buf := serialized key BIP32_FLAG_KEY_PRIVATE in
    Ret tt (add_stdout
              (add_calls w1 [Call_wally_base58_from_bytes buf BASE58_FLAG_CHECKSUM])
              (wally_base58_from_bytes buf BASE58_FLAG_CHECKSUM ++ newline))
  else Abort (add_stderr w1 (serialize_assert (progname w))).
Proof.
  unfold dump_version, bind, modify, gets, log, assert, printf,
    fprintf_stderr, modify, ret, abort.
  cbn [snd bip32 set_bip32]. fold (reroot (bip32 w) v).
  unfold bip32_key_serialize.
  rewrite Nat.eqb_refl, andb_true_r.
  destruct (serializable (reroot (bip32 w) v) BIP32_FLAG_KEY_PRIVATE);
    reflexivity.
Qed.

Lemma load_hsm_eq (fuel : nat) (env : environment) (p : string) :
  load_hsm fuel env (Some p) (started env) =
  match fs env p with
  | inl e =>
      Exit 1 (add_stderr (set_errno (opened env p) e)
                         ("opening: " ++ strerror e ++ newline))
  | inr contents =>
      match read_all fuel (open_io env contents) 0 32 with
      | None => OutOfFuel
      | Some (false, st') =>
          Exit 1 (add_stderr (loaded env p st')
                    ("reading: " ++ strerror (io_errno st') ++ newline))
      | Some (true, st') => populate_secretstuff fuel (loaded env p st')
      end
  end.
Proof.
  unfold load_hsm. unfold bind at 1. unfold log at 1. unfold modify at 1.
  fold (add_calls (started env) [Call_open p]). fold (opened env p).
  destruct (fs env p) as [e|contents].
  - reflexivity.
  - change (mk_io (mk_open_file contents 0 (sched env))
                  (errno (opened env p)) (hsm_secret (opened env p)))
      with (open_io env contents).
    destruct (read_all fuel (open_io env contents) 0 32) as [[[|] st']|];
      reflexivity.
Qed.

Lemma run_eq (fuel : nat) (env : environment) :
  run fuel env =
  if negb (length (argv env) =? 2)%nat
  then Some (Exited 42, add_stderr (process_start env) usage_text)
  else
    match load_hsm fuel env (nth_error (argv env) 1) (started env) with
    | Ret _ w =>
        match dump_version ("standard"%string, BIP32_VER_MAIN_PRIVATE) w with
        | Ret _ w' => Some (Exited 0, w')
        | Exit c w' => Some (Exited c, w')
        | Abort w' => Some (Aborted, w')
        | OutOfFuel => None
        end
    | Exit c w => Some (Exited c, w)
    | Abort w => Some (Aborted, w)
    | OutOfFuel => None
    end.
Proof.
  unfold run, main. unfold bind at 1.
  destruct (negb (length (argv env) =? 2)%nat); [reflexivity|].
  unfold ret at 1. unfold bind at 1.
  unfold dump_xpriv. unfold bind at 1. unfold modify at 1.
  unfold bind at 1. unfold modify at 1.
  change (set_key_version _ _) with (started env).
  unfold bind at 1.
  destruct (load_hsm fuel env (nth_error (argv env) 1) (started env))
    as [[] w | | |]; try reflexivity.
  unfold versions, for_each. unfold bind at 1. unfold bind at 1.
  destruct (dump_version _ w) as [[] w' | | |]; reflexivity.
Qed.

Lemma argv_two (env : environment) :
  length (argv env) = 2%nat -> exists p, nth_error (argv env) 1 = Some p.
Proof.
  destruct (argv env) as [|a [|p l]]; cbn; intros H; try discriminate.
  now exists p.
Qed.

(** Every run that ends, ends in one of the seven ways. *)
Lemma run_sound (fuel : nat) (env : environment) (s : status) (w : world) :
  run fuel env = Some (s, w) -> ending fuel env s w.
Proof.
  intros H. rewrite run_eq in H.
  destruct (Nat.eqb_spec (length (argv env)) 2) as [Hlen|Hlen]; cbn [negb] in H.
  2:{ injection H as <- <-. now apply End_usage. }
  destruct (argv_two env Hlen) as [p Hp]. rewrite Hp, load_hsm_eq in H.
  destruct (fs env p) as [e|contents] eqn:Efs.
  { injection H as <- <-. now apply End_open. }
  destruct (read_all fuel (open_io env contents) 0 32) as [[[|] st']|] eqn:Erd;
    [ | injection H as <- <-; now apply End_read with contents | discriminate ].
  rewrite populate_secretstuff_eq in H.
  change (set_key_version (loaded env p st') main_pair) with (loaded env p st') in H.
  pose proof (seed_loop_inv fuel 0 (loaded env p st')) as Hloop.
  cbv zeta in Hloop.
  change (salt_of_attempt (N.of_nat 0)) with 0 in Hloop.
  change (hsm_secret (loaded env p st')) with (io_mem st') in Hloop.
  change (bip32_privkey_version (key_version (loaded env p st')))
    with BIP32_VER_MAIN_PRIVATE in Hloop.
  destruct (seed_loop fuel ctx0 0 (loaded env p st')) as [master w1 | | |];
    try contradiction; try discriminate.
  destruct Hloop as (n & Hn & Hrej & Hacc & Hkey & Hw1).
  cbn [Nat.add] in *.
  assert (Hfirst : first_accepted fuel (io_mem st') n).
  { repeat split; try assumption. intros j Hj. apply Hrej. lia. }
  fold (master_key (io_mem st') n) in Hkey.
  fold (whitening_calls (io_mem st') BIP32_VER_MAIN_PRIVATE n) in Hw1.
  fold (add_calls (loaded env p st')
          (whitening_calls (io_mem st') BIP32_VER_MAIN_PRIVATE n)) in Hw1.
  fold (whitened env p st' n) in Hw1.
  subst master w1. cbv zeta in H.
  destruct (fst (derive (master_key (io_mem st') n)) =? WALLY_OK) eqn:E1.
  2:{ injection H as <- <-. now apply End_derive_child with contents. }
  destruct (fst (derive (snd (derive (master_key (io_mem st') n)))) =? WALLY_OK)
    eqn:E2.
  2:{ injection H as <- <-. now apply End_derive_private with contents. }
  rewrite dump_version_eq in H. cbv zeta in H.
  match type of H with
  | context [serializable ?k _] =>
      change k with (printed_key (io_mem st') n) in H
  end.
  destruct (serializable (printed_key (io_mem st') n) BIP32_FLAG_KEY_PRIVATE)
    eqn:E3.
  - injection H as <- <-. now apply End_success with contents.
  - injection H as <- <-. now apply End_assert with contents.
Qed.

(** And each of the seven is what the run computes. *)
Lemma run_complete (fuel : nat) (env : environment) (s : status) (w : world) :
  ending fuel env s w -> run fuel env = Some (s, w).
Proof.
  intros H. rewrite run_eq.
  assert (Hpop : forall p st' n,
             first_accepted fuel (io_mem st') n ->
             seed_loop fuel ctx0 0 (set_key_version (loaded env p st') main_pair)
             = Ret (master_key (io_mem st') n) (whitened env p st' n)).
  { intros p st' n (Hn & Hrej & Hacc).
    exact (seed_loop_run fuel n (loaded env p st') Hn Hrej Hacc). }
  destruct H as
    [ Hlen
    | p e Hlen Hp Hfs
    | p contents st' Hlen Hp Hfs Hrd
    | p contents st' n Hlen Hp Hfs Hrd Hfirst E1
    | p contents st' n Hlen Hp Hfs Hrd Hfirst E1 E2
    | p contents st' n Hlen Hp Hfs Hrd Hfirst E1 E2 E3
    | p contents st' n Hlen Hp Hfs Hrd Hfirst E1 E2 E3 ].
  - destruct (Nat.eqb_spec (length (argv env)) 2); [contradiction|reflexivity].
  - rewrite Hlen, Hp, load_hsm_eq, Hfs. reflexivity.
  - rewrite Hlen, Hp, load_hsm_eq, Hfs, Hrd. reflexivity.
  - rewrite Hlen, Hp, load_hsm_eq, Hfs, Hrd, populate_secretstuff_eq.
    rewrite (Hpop _ _ _ Hfirst). cbv zeta. rewrite E1. reflexivity.
  - rewrite Hlen, Hp, load_hsm_eq, Hfs, Hrd, populate_secretstuff_eq.
    rewrite (Hpop _ _ _ Hfirst). cbv zeta. rewrite E1, E2. reflexivity.
  - rewrite Hlen, Hp, load_hsm_eq, Hfs, Hrd, populate_secretstuff_eq.
    rewrite (Hpop _ _ _ Hfirst). cbv zeta. rewrite E1, E2.
    cbn [Nat.eqb negb]. rewrite dump_version_eq. cbv zeta.
    change (reroot _ BIP32_VER_MAIN_PRIVATE) with (printed_key (io_mem st') n).
    rewrite E3. reflexivity.
  - rewrite Hlen, Hp, load_hsm_eq, Hfs, Hrd, populate_secretstuff_eq.
    rewrite (Hpop _ _ _ Hfirst). cbv zeta. rewrite E1, E2.
    cbn [Nat.eqb negb]. rewrite dump_version_eq. cbv zeta.
    change (reroot _ BIP32_VER_MAIN_PRIVATE) with (printed_key (io_mem st') n).
    rewrite E3. reflexivity.
Qed.

End Pipeline.

Section Loading.

Context {L : Lib}.

(** A read event that does not end [read_all]: data, or an interruption. *)
Definition benign (ev : read_event) : Prop :=
  match ev with
  | RdErr e => e = EINTR
  | RdChunk _ => True
  end.

(** When [read_all] succeeds, the secret is the first 32 bytes of the
    file. *)
Lemma read_secret_true (fuel : nat) (env : environment) (contents : list byte)
      (st' : io) :
  read_all fuel (open_io env contents) 0 32 = Some (true, st') ->
  io_mem st' = firstn 32 contents.
Proof.
  intros Hrun.
  apply read_all_sound in Hrun; [|cbn; lia].
  destruct Hrun as (H1 & H2 & H3 & H4 & H5 & H6 & H7).
  unfold consumed, unread in *.
  cbn [open_io io_file io_mem f_pos f_data f_sched skipn] in *.
  rewrite Nat.sub_0_r in *.
  assert (Hc : f_pos (io_file st') = 32%nat) by now apply H6.
  rewrite Hc in *. rewrite H5. unfold splice.
  rewrite length_firstn, Nat.min_l by lia.
  rewrite (skipn_all2 (repeat x00 32)) by (rewrite repeat_length; lia).
  change (firstn 0 (repeat x00 32)) with (@nil byte).
  cbn [app]. apply app_nil_r.
Qed.

(** With enough bytes in the file and no error but [EINTR], [read_all]
    fills the secret with the first 32 bytes. *)
Lemma read_secret_ok (fuel : nat) (env : environment) (contents : list byte)
      (b : bool) (st' : io) :
  (32 <= length contents)%nat ->
  Forall benign (sched env) ->
  read_all fuel (open_io env contents) 0 32 = Some (b, st') ->
  b = true /\ io_mem st' = firstn 32 contents.
Proof.
  intros Hlen Hben Hrun.
  apply read_all_sound in Hrun; [|cbn; lia].
  destruct Hrun as (H1 & H2 & H3 & H4 & H5 & H6 & H7).
  unfold consumed in *. cbn [open_io io_file io_mem f_pos f_data f_sched] in *.
  rewrite Nat.sub_0_r in *.
  assert (Hb : b = true).
  { destruct b; [reflexivity|exfalso].
    destruct (H7 eq_refl) as [HU|[Hne Hin]].
    - unfold unread in HU. rewrite H1 in HU.
      assert (Hl : length (skipn (f_pos (io_file st')) contents) = 0%nat)
        by now rewrite HU.
      rewrite length_skipn in Hl.
      assert (f_pos (io_file st') = 32%nat) by lia.
      assert (false = true) by now apply H6.
      discriminate.
    - rewrite Forall_forall in Hben. apply Hben in Hin. cbn in Hin.
      contradiction. }
  split; [exact Hb|].
  apply H6 in Hb. rewrite Hb in H5. rewrite H5.
  unfold unread. cbn [f_pos f_data skipn]. unfold splice.
  rewrite length_firstn, Nat.min_l by lia.
  rewrite (skipn_all2 (repeat x00 32)) by (rewrite repeat_length; lia).
  change (firstn 0 (repeat x00 32)) with (@nil byte).
  cbn [app]. apply app_nil_r.
Qed.

(** A file too short for the secret makes [read_all] fail. *)
Lemma read_secret_short (fuel : nat) (env : environment) (contents : list byte)
      (b : bool) (st' : io) :
  (length contents < 32)%nat ->
  read_all fuel (open_io env contents) 0 32 = Some (b, st') ->
  b = false.
Proof.
  intros Hlen Hrun.
  apply read_all_sound in Hrun; [|cbn; lia].
  destruct Hrun as (H1 & H2 & H3 & H4 & H5 & H6 & H7).
  unfold consumed, unread in *.
  cbn [open_io io_file io_mem f_pos f_data f_sched skipn] in *.
  destruct b; [|reflexivity].
  assert (E : (f_pos (io_file st') - 0)%nat = 32%nat) by now apply H6.
  lia.
Qed.

(** What of the state after [read_all] the rest of the program looks at. *)
Definition seen (r : option (bool * io)) : option (bool * list byte * Z) :=
  match r with
  | Some (b, st) => Some (b, io_mem st, io_errno st)
  | None => None
  end.

(** Bytes beyond the window [read_all] was asked for are never looked at. *)
Lemma read_all_window (fuel : nat) :
  forall c len p sch e m data size,
    (p + size <= len)%nat ->
    seen (read_all fuel (mk_io (mk_open_file c p sch) e m) data size)
    = seen (read_all fuel (mk_io (mk_open_file (firstn len c) p sch) e m)
                     data size).
Proof.
  induction fuel as [|fuel IH]; intros c len p sch e m data size Hwin;
    [reflexivity|].
  cbn [read_all].
  destruct (size =? 0)%nat; [reflexivity|].
  assert (Hpre : forall k, (k <= size)%nat ->
             firstn k (unread (mk_open_file (firstn len c) p sch))
             = firstn k (unread (mk_open_file c p sch))).
  { intros k Hk. unfold unread. cbn [f_pos f_data].
    rewrite skipn_firstn_comm, firstn_firstn. f_equal. lia. }
  unfold sys_read. cbn [io_file f_sched f_data f_pos io_errno io_mem].
  destruct sch as [|[e1|k] sch].
  - rewrite (Hpre size) by lia.
    set (bs := firstn size (unread (mk_open_file c p []))).
    assert (length bs <= size)%nat by (subst bs; rewrite length_firstn; lia).
    cbn [io_errno].
    destruct (Z.ltb_spec (Z.of_nat (length bs)) 0) as [?|_]; [lia|].
    cbn [andb].
    destruct (Z.of_nat (length bs) <=? 0); [reflexivity|].
    rewrite Nat2Z.id. apply IH. lia.
  - cbn [io_errno]. destruct ((-1 <? 0) && (e1 =? EINTR)).
    + apply IH. exact Hwin.
    + destruct (-1 <=? 0); [reflexivity|]. apply IH. lia.
  - rewrite (Hpre (Nat.min (S k) size)) by lia.
    set (bs := firstn (Nat.min (S k) size)
                      (unread (mk_open_file c p (RdChunk k :: sch)))).
    assert (length bs <= size)%nat by (subst bs; rewrite length_firstn; lia).
    cbn [io_errno].
    destruct (Z.ltb_spec (Z.of_nat (length bs)) 0) as [?|_]; [lia|].
    cbn [andb].
    destruct (Z.of_nat (length bs) <=? 0); [reflexivity|].
    rewrite Nat2Z.id. apply IH. lia.
Qed.

End Loading.

Section Correctness.

Context {L : Lib}.

Lemma first_accepted_unique (f1 f2 : nat) (secret : list byte) (n1 n2 : nat) :
  first_accepted f1 secret n1 -> first_accepted f2 secret n2 -> n1 = n2.
Proof.
  intros (_ & Hrej1 & Hacc1) (_ & Hrej2 & Hacc2).
  destruct (Nat.lt_trichotomy n1 n2) as [Hlt|[Heq|Hgt]]; [|exact Heq|].
  - rewrite (Hrej2 n1 Hlt) in Hacc1. discriminate.
  - rewrite (Hrej1 n2 Hgt) in Hacc2. discriminate.
Qed.

Lemma append_newline_nonempty (s : string) : (s ++ newline)%string <> ""%string.
Proof. destruct s; discriminate. Qed.

(** The three kinds of runtime failure, as conditions on what the process
    meets. *)
Definition open_fails (env : environment) : Prop :=
  exists p e, nth_error (argv env) 1 = Some p /\ fs env p = inl e.

Definition read_fails (fuel : nat) (env : environment) : Prop :=
  exists p contents st',
    nth_error (argv env) 1 = Some p
    /\ fs env p = inr contents
    /\ read_all fuel (open_io env contents) 0 32 = Some (false, st').

Definition derivation_fails (fuel : nat) (env : environment) : Prop :=
  exists p contents st' n,
    nth_error (argv env) 1 = Some p
    /\ fs env p = inr contents
    /\ read_all fuel (open_io env contents) 0 32 = Some (true, st')
    /\ first_accepted fuel (io_mem st') n
    /\ let master := master_key (io_mem st') n in
       fst (derive master) <> WALLY_OK
       \/ (fst (derive master) = WALLY_OK
           /\ fst (derive (snd (derive master))) <> WALLY_OK).

(** Success: the secret is read, an attempt is accepted, both derivations
    succeed and the key serializes. *)
Definition succeeds (fuel : nat) (env : environment) : Prop :=
  exists p contents st' n,
    nth_error (argv env) 1 = Some p
    /\ fs env p = inr contents
    /\ read_all fuel (open_io env contents) 0 32 = Some (true, st')
    /\ first_accepted fuel (io_mem st') n
    /\ fst (derive (master_key (io_mem st') n)) = WALLY_OK
    /\ fst (derive (snd (derive (master_key (io_mem st') n)))) = WALLY_OK
    /\ serializable (printed_key (io_mem st') n) BIP32_FLAG_KEY_PRIVATE = true.

(** C5. Started with an argument count other than 2 the process exits
    with code 42.  With a count of 2 it exits with code 1 when the secret
    file cannot be opened, cannot be read in full or one of the two child
    derivations fails, and with code 0 on success.  Conversely a run that
    has ended has exit code 42 only with a wrong argument count, 1 only
    after one of these failures, 0 only on success, which is when the key
    line has been printed; there is no other exit code. *)
Theorem exit_codes (fuel : nat) (env : environment) :
  (length (argv env) <> 2%nat ->
   exists w, run fuel env = Some (Exited 42, w))
  /\ (length (argv env) = 2%nat ->
      open_fails env \/ read_fails fuel env \/ derivation_fails fuel env ->
      exists w, run fuel env = Some (Exited 1, w))
  /\ (length (argv env) = 2%nat ->
      succeeds fuel env ->
      exists w, run fuel env = Some (Exited 0, w))
  /\ (forall s w,
        run fuel env = Some (s, w) ->
        (s = Exited 42 <-> length (argv env) <> 2%nat)
        /\ (s = Exited 1 <->
            length (argv env) = 2%nat
            /\ (open_fails env \/ read_fails fuel env
                \/ derivation_fails fuel env))
        /\ (s = Exited 0 <-> length (argv env) = 2%nat /\ succeeds fuel env)
        /\ (s = Exited 0 <->
            exists secret n,
              stdout w = (printed_line secret n ++ newline)%string)
        /\ (forall c, s = Exited c -> c = 0 \/ c = 1 \/ c = 42)).
Proof.
  assert (H42 : length (argv env) <> 2%nat ->
                exists w, run fuel env = Some (Exited 42, w)).
  { intros Hlen. eexists. apply run_complete. now apply End_usage. }
  assert (H1 : length (argv env) = 2%nat ->
               open_fails env \/ read_fails fuel env
               \/ derivation_fails fuel env ->
               exists w, run fuel env = Some (Exited 1, w)).
  { intros Hlen [Hf|[Hf|Hf]].
    - destruct Hf as (p & e & Hp & Hfs).
      eexists. apply run_complete. exact (End_open fuel env p e Hlen Hp Hfs).
    - destruct Hf as (p & contents & st' & Hp & Hfs & Hrd).
      eexists. apply run_complete.
      exact (End_read fuel env p contents st' Hlen Hp Hfs Hrd).
    - destruct Hf as (p & contents & st' & n & Hp & Hfs & Hrd & Hfirst & Hd).
      cbv zeta in Hd. destruct Hd as [Hd|[Hd1 Hd2]].
      + apply Z.eqb_neq in Hd.
        eexists. apply run_complete.
        exact (End_derive_child fuel env p contents st' n
                 Hlen Hp Hfs Hrd Hfirst Hd).
      + apply Z.eqb_eq in Hd1. apply Z.eqb_neq in Hd2.
        eexists. apply run_complete.
        exact (End_derive_private fuel env p contents st' n
                 Hlen Hp Hfs Hrd Hfirst Hd1 Hd2). }
  assert (H0 : length (argv env) = 2%nat ->
               succeeds fuel env ->
               exists w, run fuel env = Some (Exited 0, w)).
  { intros Hlen (p & contents & st' & n & Hp & Hfs & Hrd & Hfirst
                 & E1 & E2 & E3).
    apply Z.eqb_eq in E1, E2.
    eexists. apply run_complete.
    exact (End_success fuel env p contents st' n
             Hlen Hp Hfs Hrd Hfirst E1 E2 E3). }
  split; [exact H42|]. split; [exact H1|]. split; [exact H0|].
  intros s w Hrun.
  pose proof (run_sound _ _ _ _ Hrun) as Hend.
  split; [|split; [|split; [|split]]].
  - (* 42 *)
    split.
    + intros ->. inversion Hend. assumption.
    + intros Hlen. destruct (H42 Hlen) as [w' Hrun'].
      rewrite Hrun' in Hrun. now injection Hrun as <- _.
  - (* 1 *)
    split.
    + intros ->.
      inversion Hend as
        [ | p e Hlen Hp Hfs | p contents st' Hlen Hp Hfs Hrd
          | p contents st' n Hlen Hp Hfs Hrd Hfirst E1
          | p contents st' n Hlen Hp Hfs Hrd Hfirst E1 E2 | | ];
        (split; [exact Hlen|]).
      * left. now exists p, e.
      * right; left. now exists p, contents, st'.
      * right; right. exists p, contents, st', n.
        refine (conj Hp (conj Hfs (conj Hrd (conj Hfirst _)))).
        left. now apply Z.eqb_neq.
      * right; right. exists p, contents, st', n.
        refine (conj Hp (conj Hfs (conj Hrd (conj Hfirst _)))).
        right. split; [now apply Z.eqb_eq | now apply Z.eqb_neq].
    + intros [Hlen Hf]. destruct (H1 Hlen Hf) as [w' Hrun'].
      rewrite Hrun' in Hrun. now injection Hrun as <- _.
  - (* 0, by its cause *)
    split.
    + intros ->.
      inversion Hend as
        [ | | | | | | p contents st' n Hlen Hp Hfs Hrd Hfirst E1 E2 E3 ].
      split; [exact Hlen|]. exists p, contents, st', n.
      apply Z.eqb_eq in E1, E2.
      refine (conj Hp (conj Hfs (conj Hrd (conj Hfirst _)))).
      now repeat split.
    + intros [Hlen Hs]. destruct (H0 Hlen Hs) as [w' Hrun'].
      rewrite Hrun' in Hrun. now injection Hrun as <- _.
  - (* 0, by its output *)
    split.
    + intros ->. inversion Hend; subst. eexists _, _. reflexivity.
    + intros (secret & n & Hout).
      inversion Hend; subst; try reflexivity;
        cbn in Hout; symmetry in Hout;
        now apply append_newline_nonempty in Hout.
  - (* nothing else *)
    intros c ->. inversion Hend; auto.
Qed.

Lemma newline_not_base58 : ~ In "010"%char Base58.alphabet.
Proof.
  unfold Base58.alphabet. cbn [list_ascii_of_string In].
  intros H. repeat (destruct H as [H|H]; [discriminate|]). exact H.
Qed.

(** C1. A run that succeeds writes exactly one line to standard output: a
    Base58Check string, without a line break inside, followed by a line
    break.  Decoding the string and taking off the 4-byte checksum gives a
    payload of 78 bytes that starts with the mainnet private version tag
    04 88 AD E4, has depth byte 00 and four zero bytes of parent
    fingerprint: the payload is the serialization of the derived key after
    [dump_xpriv] has overwritten its version, depth and parent hash. *)
Theorem output_is_rerooted_xprv (fuel : nat) (env : environment) (w : world) :
  run fuel env = Some (Exited 0, w) ->
  exists line payload derived,
    stdout w = (line ++ newline)%string
    /\ ~ In "010"%char (list_ascii_of_string line)
    /\ Base58.check_decode sha256 line = Some payload
    /\ length payload = 78%nat
    /\ firstn 4 payload = [x04; x88; xad; xe4]
    /\ nth 4 payload xff = x00
    /\ firstn 4 (skipn 5 payload) = [x00; x00; x00; x00]
    /\ payload = serialized (bip32 w) BIP32_FLAG_KEY_PRIVATE
    /\ bip32 w = set_parent160
                   (set_depth (set_version derived BIP32_VER_MAIN_PRIVATE) 0)
                   (Vector.const x00 20).
Proof.
  intros Hrun. apply run_sound in Hrun.
  inversion Hrun as [ | | | | | | p contents st' n Hlen Hp Hfs Hrd Hfirst E1 E2 E3 ];
    subst.
  set (key := printed_key (io_mem st') n).
  exists (printed_line (io_mem st') n), (serialized key BIP32_FLAG_KEY_PRIVATE),
         (snd (derive (snd (derive (master_key (io_mem st') n))))).
  assert (Hline : printed_line (io_mem st') n
                  = Base58.check_encode sha256
                      (serialized key BIP32_FLAG_KEY_PRIVATE)).
  { unfold printed_line, wally_base58_from_bytes. now rewrite Z.eqb_refl. }
  split; [reflexivity|].
  split.
  { rewrite Hline. unfold Base58.check_encode, Base58.encode.
    rewrite list_ascii_of_string_of_list_ascii.
    intros Hin.
    pose proof (Base58.encode_chars_alphabet
                  (serialized key BIP32_FLAG_KEY_PRIVATE
                     ++ Base58.checksum sha256
                          (serialized key BIP32_FLAG_KEY_PRIVATE))) as Hall.
    rewrite Forall_forall in Hall. apply Hall in Hin.
    now apply newline_not_base58. }
  split; [rewrite Hline; apply Base58.check_decode_encode|].
  split; [apply length_serialized|].
  unfold serialized, key, printed_key, reroot.
  cbn [version depth parent160 set_version set_depth set_parent160].
  repeat split; reflexivity.
Qed.

(** *** Seed whitening *)

Lemma whitening_nth (secret : list byte) (v : Z) :
  forall k m a,
    (k < m)%nat ->
    nth_error (flat_map (attempt_calls secret v) (seq a m)) (2 * k)
    = Some (Call_hkdf_sha256 32
              (u32_le_bytes (salt_of_attempt (N.of_nat (a + k))))
              secret seed_info)
    /\ nth_error (flat_map (attempt_calls secret v) (seq a m)) (2 * k + 1)
       = Some (Call_bip32_key_from_seed (candidate secret (a + k)) v 0).
Proof.
  induction k as [|k IH]; intros m a Hk.
  - destruct m as [|m]; [lia|]. rewrite Nat.add_0_r. now cbn.
  - destruct m as [|m]; [lia|].
    replace (2 * S k)%nat with (S (S (2 * k))) by lia.
    replace (a + S k)%nat with (S a + k)%nat by lia.
    cbn [seq flat_map attempt_calls app Nat.add nth_error].
    apply IH. lia.
Qed.

(** The attempt with the same salt among the first 2^32. *)
Definition first_round (k : nat) : nat := Z.to_nat (Z.of_nat k mod 2 ^ 32).

Lemma first_round_bound (k : nat) : Z.of_nat (first_round k) < 2 ^ 32.
Proof.
  unfold first_round.
  pose proof (Z.mod_pos_bound (Z.of_nat k) (2 ^ 32) ltac:(lia)). lia.
Qed.

Lemma first_round_le (k : nat) : (first_round k <= k)%nat.
Proof.
  unfold first_round.
  pose proof (Z.mod_le (Z.of_nat k) (2 ^ 32) ltac:(lia) ltac:(lia)). lia.
Qed.

Lemma first_round_small (k : nat) : Z.of_nat k < 2 ^ 32 -> first_round k = k.
Proof.
  intros H. unfold first_round. rewrite Z.mod_small by lia. lia.
Qed.

(** The salt, and with it the candidate, comes round after 2^32
    attempts. *)
Lemma salt_first_round (k : nat) :
  salt_of_attempt (N.of_nat (first_round k)) = salt_of_attempt (N.of_nat k).
Proof.
  rewrite !salt_of_attempt_mod, !nat_N_Z. unfold first_round.
  pose proof (Z.mod_pos_bound (Z.of_nat k) (2 ^ 32) ltac:(lia)).
  rewrite Z2Nat.id by lia. apply Z.mod_mod. lia.
Qed.

Lemma accepted_first_round (secret : list byte) (v : Z) (k : nat) :
  accepted secret v (first_round k) = accepted secret v k.
Proof.
  unfold accepted, master_try, candidate. now rewrite salt_first_round.
Qed.

(** Below an accepted attempt there is a first one. *)
Lemma least_accepted (secret : list byte) (v : Z) (k : nat) :
  accepted secret v k = true ->
  exists n,
    (n <= k)%nat
    /\ (forall j, (j < n)%nat -> accepted secret v j = false)
    /\ accepted secret v n = true.
Proof.
  induction k as [k IH] using lt_wf_ind. intros Hk.
  destruct (forallb (fun j => negb (accepted secret v j)) (seq 0 k)) eqn:E.
  - exists k. split; [lia|]. split; [|exact Hk].
    intros j Hj. rewrite forallb_forall in E.
    specialize (E j ltac:(apply in_seq; lia)). now apply negb_true_iff in E.
  - assert (Hex : exists j, (j < k)%nat /\ accepted secret v j = true).
    { clear IH Hk. induction k as [|k IHk]; [discriminate|].
      rewrite seq_S, forallb_app in E. cbn in E.
      destruct (forallb _ (seq 0 k)) eqn:E'.
      - exists k. split; [lia|]. cbn in E.
        destruct (accepted secret v k); [reflexivity | discriminate].
      - destruct (IHk eq_refl) as (j & Hj & Hacc). exists j. split; [lia|exact Hacc]. }
    destruct Hex as (j & Hj & Hacc).
    destruct (IH j Hj Hacc) as (n & Hn & Hrej & Hn').
    exists n. split; [lia|]. now split.
Qed.

(** A salt that has not come round is the number of the attempt. *)
Lemma salt_of_attempt_small (k : nat) :
  Z.of_nat k < 2 ^ 32 -> salt_of_attempt (N.of_nat k) = Z.of_nat k.
Proof.
  intros H. rewrite salt_of_attempt_mod, nat_N_Z. apply Z.mod_small. lia.
Qed.

(** The first accepted attempt is one of the first 2^32: a later one
    repeats the salt of an earlier one, which was turned down. *)
Lemma first_accepted_bound (secret : list byte) (v : Z) (n : nat) :
  (forall j, (j < n)%nat -> accepted secret v j = false) ->
  accepted secret v n = true ->
  Z.of_nat n < 2 ^ 32.
Proof.
  intros Hrej Hacc.
  destruct (Z.lt_ge_cases (Z.of_nat n) (2 ^ 32)) as [Hlt|Hge]; [exact Hlt|].
  exfalso.
  assert (Hlt : (first_round n < n)%nat).
  { pose proof (first_round_bound n). lia. }
  rewrite <- accepted_first_round in Hacc.
  rewrite Hrej in Hacc by exact Hlt. discriminate.
Qed.

Lemma length_attempts (secret : list byte) (v : Z) (l : list nat) :
  length (flat_map (attempt_calls secret v) l) = (2 * length l)%nat.
Proof.
  induction l as [|k l IH]; [reflexivity|].
  cbn [flat_map attempt_calls app length]. rewrite IH. lia.
Qed.

(** C2.  Candidate number [k] (from 0) is HKDF-SHA256 of the secret with
    the label "bip32 seed" and a 4-byte salt whose value is [k]: the salt
    starts at 0 and goes up by 1 from one attempt to the next.  The loop
    makes the candidates in this order until the library accepts one, and
    returns the master key built from that one.  The salt is a 32-bit
    counter, but in a loop that returns it never comes round: the first
    accepted attempt is one of the first 2^32.  Whatever the number of
    turns granted, a loop that returns returns this. *)
Theorem seed_whitening (fuel n : nat) (w : world) :
  let secret := hsm_secret w in
  let v := bip32_privkey_version (key_version w) in
  (n < fuel)%nat ->
  (forall j, (j < n)%nat -> accepted secret v j = false) ->
  accepted secret v n = true ->
  seed_loop fuel ctx0 0 w
  = Ret (snd (bip32_key_from_seed ctx0 (candidate secret n) v 0))
        (add_calls w (whitening_calls secret v n))
  /\ Z.of_nat n < 2 ^ 32
  /\ length (whitening_calls secret v n) = (2 * (n + 1))%nat
  /\ (forall k,
        (k <= n)%nat ->
        let salt := u32_le_bytes (Z.of_nat k) in
        length salt = 4%nat
        /\ le_value salt = Z.of_nat k
        /\ candidate secret k
           = hkdf_sha256 32 salt secret (list_byte_of_string "bip32 seed")
        /\ nth_error (whitening_calls secret v n) (2 * k)
           = Some (Call_hkdf_sha256 32 salt secret
                     (list_byte_of_string "bip32 seed"))
        /\ nth_error (whitening_calls secret v n) (2 * k + 1)
           = Some (Call_bip32_key_from_seed (candidate secret k) v 0)
        /\ (accepted secret v k = true <-> k = n))
  /\ (forall fuel' key w',
        seed_loop fuel' ctx0 0 w = Ret key w' ->
        key = snd (bip32_key_from_seed ctx0 (candidate secret n) v 0)
        /\ w' = add_calls w (whitening_calls secret v n)).
Proof.
  intros secret v Hn Hrej Hacc.
  pose proof (first_accepted_bound secret v n Hrej Hacc) as Hbound.
  split; [exact (seed_loop_run fuel n w Hn Hrej Hacc)|].
  split; [exact Hbound|].
  split.
  { unfold whitening_calls. rewrite length_attempts, length_seq. lia. }
  split.
  - intros k Hk salt.
    destruct (whitening_nth secret v k (S n) 0 ltac:(lia)) as [H1 H2].
    cbn [Nat.add] in H1, H2.
    assert (Hsalt : salt_of_attempt (N.of_nat k) = Z.of_nat k)
      by (apply salt_of_attempt_small; lia).
    rewrite Hsalt in H1.
    split; [reflexivity|].
    split.
    { unfold salt. rewrite le_value_u32. unfold wrap32, u32_modulus.
      apply Z.mod_small. lia. }
    split.
    { unfold candidate. now rewrite Hsalt. }
    split; [exact H1|].
    split; [exact H2|].
    split.
    + intros Hk'. destruct (Nat.eq_dec k n) as [E|E]; [exact E|].
      rewrite Hrej in Hk' by lia. discriminate.
    + intros ->. exact Hacc.
  - intros fuel' key w' Hrun.
    destruct (Nat.lt_ge_cases n fuel') as [Hlt|Hge].
    + rewrite (seed_loop_run fuel' n w Hlt Hrej Hacc) in Hrun.
      injection Hrun as <- <-. now split.
    + exfalso.
      pose proof (seed_loop_inv fuel' 0 w) as H. cbv zeta in H.
      change (salt_of_attempt (N.of_nat 0)) with 0 in H.
      rewrite Hrun in H. fold secret v in H.
      destruct H as (m & Hm & _ & Hacc' & _). cbn [Nat.add] in Hacc'.
      rewrite Hrej in Hacc' by lia. discriminate.
Qed.

(** *** The fixed path *)

Definition is_derivation (c : call) : bool :=
  match c with
  | Call_bip32_key_from_parent _ _ _ => true
  | _ => false
  end.

Lemma whitening_no_derivation (secret : list byte) (v : Z) (n : nat) :
  filter is_derivation (whitening_calls secret v n) = [].
Proof.
  unfold whitening_calls. generalize (seq 0 (S n)) as l.
  induction l as [|k l IH]; [reflexivity|].
  cbn [flat_map attempt_calls app filter is_derivation]. exact IH.
Qed.

Lemma populate_secretstuff_inv (fuel : nat) (w : world) :
  let secret := hsm_secret w in
  let w0 := set_key_version w main_pair in
  match populate_secretstuff fuel w with
  | Ret _ w' =>
      exists n,
        first_accepted fuel secret n
        /\ let master := master_key secret n in
           let child := snd (derive master) in
           fst (derive master) = WALLY_OK
           /\ fst (derive child) = WALLY_OK
           /\ w' = set_bip32
                     (add_calls
                        (add_calls
                           (add_calls w0 (whitening_calls secret
                                            BIP32_VER_MAIN_PRIVATE n))
                           [derive_call master])
                        [derive_call child])
                     (snd (derive child))
  | Exit c w' =>
      c = 1 /\ stdout w' = stdout w
  | Abort _ => False
  | OutOfFuel =>
      forall j, (j < fuel)%nat -> accepted secret BIP32_VER_MAIN_PRIVATE j = false
  end.
Proof.
  intros secret w0. rewrite populate_secretstuff_eq. fold w0.
  pose proof (seed_loop_inv fuel 0 w0) as Hloop. cbv zeta in Hloop.
  change (salt_of_attempt (N.of_nat 0)) with 0 in Hloop.
  change (hsm_secret w0) with secret in Hloop.
  change (bip32_privkey_version (key_version w0))
    with BIP32_VER_MAIN_PRIVATE in Hloop.
  destruct (seed_loop fuel ctx0 0 w0) as [master w1 | | |];
    try contradiction.
  - destruct Hloop as (n & Hn & Hrej & Hacc & -> & ->). cbn [Nat.add] in *.
    assert (Hfirst : first_accepted fuel secret n).
    { split; [exact Hn|]. split; [|exact Hacc]. intros j Hj. apply Hrej. lia. }
    cbv zeta. fold (master_key secret n).
    destruct (Z.eqb_spec (fst (derive (master_key secret n))) WALLY_OK)
      as [E1|E1]; [|now split].
    destruct (Z.eqb_spec
                (fst (derive (snd (derive (master_key secret n))))) WALLY_OK)
      as [E2|E2]; [|now split].
    exists n. split; [exact Hfirst|]. now repeat split.
  - intros j Hj. apply Hloop. lia.
Qed.

(** C3. When [populate_secretstuff] returns, the key it has stored was
    reached from the master key by two child derivations, child 0 of the
    master and child 0 of that, both not hardened and both made with the
    private-key flag; these two are all the derivations it has made. *)
Theorem fixed_derivation_path (fuel : nat) (w w' : world) :
  populate_secretstuff fuel w = Ret tt w' ->
  exists n master child,
    first_accepted fuel (hsm_secret w) n
    /\ master = snd (bip32_key_from_seed ctx0 (candidate (hsm_secret w) n)
                                         BIP32_VER_MAIN_PRIVATE 0)
    /\ bip32_key_from_parent ctx0 master 0 BIP32_FLAG_KEY_PRIVATE
       = (WALLY_OK, child)
    /\ bip32_key_from_parent ctx0 child 0 BIP32_FLAG_KEY_PRIVATE
       = (WALLY_OK, bip32 w')
    /\ is_hardened 0 = false
    /\ filter is_derivation (calls w')
       = filter is_derivation (calls w)
           ++ [ Call_bip32_key_from_parent master 0 BIP32_FLAG_KEY_PRIVATE;
                Call_bip32_key_from_parent child 0 BIP32_FLAG_KEY_PRIVATE ].
Proof.
  intros Hrun.
  pose proof (populate_secretstuff_inv fuel w) as Hinv. cbv zeta in Hinv.
  rewrite Hrun in Hinv.
  destruct Hinv as (n & Hfirst & E1 & E2 & ->).
  exists n, (master_key (hsm_secret w) n),
         (snd (derive (master_key (hsm_secret w) n))).
  split; [exact Hfirst|].
  split; [reflexivity|].
  split.
  { fold (derive (master_key (hsm_secret w) n)). rewrite <- E1.
    now destruct (derive (master_key (hsm_secret w) n)). }
  split.
  { cbn [bip32 set_bip32].
    fold (derive (snd (derive (master_key (hsm_secret w) n)))).
    rewrite <- E2.
    now destruct (derive (snd (derive (master_key (hsm_secret w) n)))). }
  split; [reflexivity|].
  cbn [calls set_bip32 add_calls set_calls set_key_version].
  rewrite !filter_app, whitening_no_derivation, app_nil_r, <- app_assoc.
  reflexivity.
Qed.

End Correctness.

Section Robustness.

Context {L : Lib}.

(** C8. If one of the two child derivations fails, the process writes a
    message to standard error and exits with code 1; nothing is written to
    standard output, and the failed call is the last call the process
    makes: no other salt, no other index is tried. *)
Theorem derivation_failure_is_fatal
        (fuel : nat) (env : environment) (p : string) (contents : list byte)
        (st' : io) (n : nat) :
  length (argv env) = 2%nat ->
  nth_error (argv env) 1 = Some p ->
  fs env p = inr contents ->
  read_all fuel (open_io env contents) 0 32 = Some (true, st') ->
  first_accepted fuel (io_mem st') n ->
  let secret := io_mem st' in
  let master := master_key secret n in
  let child := snd (derive master) in
  fst (derive master) <> WALLY_OK
  \/ (fst (derive master) = WALLY_OK /\ fst (derive child) <> WALLY_OK) ->
  exists w,
    run fuel env = Some (Exited 1, w)
    /\ stdout w = ""%string
    /\ stderr w = (if fst (derive master) =? WALLY_OK
                   then "Can't derive private bip32 key"%string
                   else "Can't derive child bip32 key"%string)
    /\ calls w = Call_open p
                   :: whitening_calls secret BIP32_VER_MAIN_PRIVATE n
                   ++ (if fst (derive master) =? WALLY_OK
                       then [ Call_bip32_key_from_parent
                                master 0 BIP32_FLAG_KEY_PRIVATE;
                              Call_bip32_key_from_parent
                                child 0 BIP32_FLAG_KEY_PRIVATE ]
                       else [ Call_bip32_key_from_parent
                                master 0 BIP32_FLAG_KEY_PRIVATE ]).
Proof.
  intros Hlen Hp Hfs Hrd Hfirst secret master child [Hd|[Hd1 Hd2]].
  - apply Z.eqb_neq in Hd.
    eexists. split.
    + apply run_complete.
      exact (End_derive_child fuel env p contents st' n
               Hlen Hp Hfs Hrd Hfirst Hd).
    + fold secret master. rewrite Hd. cbn.
      repeat split; now rewrite <- ?app_assoc.
  - apply Z.eqb_eq in Hd1. apply Z.eqb_neq in Hd2.
    eexists. split.
    + apply run_complete.
      exact (End_derive_private fuel env p contents st' n
               Hlen Hp Hfs Hrd Hfirst Hd1 Hd2).
    + fold secret master. rewrite Hd1. cbn.
      repeat split; now rewrite <- ?app_assoc.
Qed.

(** C7. With a secret file of fewer than 32 bytes the process ends, with
    exit code 1 and a "reading:" message on standard error; it writes
    nothing to standard output, and opening the file is the only call it
    has made: no whitening, no derivation. *)
Theorem short_secret_file
        (env : environment) (p : string) (contents : list byte) :
  length (argv env) = 2%nat ->
  nth_error (argv env) 1 = Some p ->
  fs env p = inr contents ->
  (length contents < 32)%nat ->
  exists w e,
    (forall fuel,
        (length (sched env) + 32 < fuel)%nat ->
        run fuel env = Some (Exited 1, w))
    /\ stdout w = ""%string
    /\ stderr w = ("reading: " ++ strerror e ++ newline)%string
    /\ calls w = [Call_open p]
    /\ bip32 w = set_version zero_key BIP32_VER_MAIN_PRIVATE.
Proof.
  intros Hlen Hp Hfs Hshort.
  destruct (read_all_terminates (S (length (sched env) + 32))
              (open_io env contents) 0 32 ltac:(cbn; lia)) as [[b st'] Hrd].
  assert (b = false) by (eapply read_secret_short; eassumption). subst b.
  exists (add_stderr (loaded env p st')
            ("reading: " ++ strerror (io_errno st') ++ newline)),
         (io_errno st').
  split; [|repeat split; reflexivity].
  intros fuel Hfuel. apply run_complete.
  apply End_read with contents; try assumption.
  apply read_all_more_fuel with (1 := Hrd). lia.
Qed.


(** *** The pipeline as a function of the secret *)

(** How the run ends and what it prints once the secret is loaded and
    attempt [n] has given the master key. *)
Definition verdict (secret : list byte) (n : nat) : status * string :=
  let master := master_key secret n in
  let child := snd (derive master) in
  if (fst (derive master) =? WALLY_OK) && (fst (derive child) =? WALLY_OK)
  then
    if serializable (printed_key secret n) BIP32_FLAG_KEY_PRIVATE
    then (Exited 0, (printed_line secret n ++ newline)%string)
    else (Aborted, ""%string)
  else (Exited 1, ""%string).

Lemma run_verdict (fuel : nat) (env : environment) (p : string)
      (contents : list byte) (s : status) (w : world) :
  length (argv env) = 2%nat ->
  nth_error (argv env) 1 = Some p ->
  fs env p = inr contents ->
  ~ read_fails fuel env ->
  run fuel env = Some (s, w) ->
  hsm_secret w = firstn 32 contents
  /\ exists n,
      first_accepted fuel (firstn 32 contents) n
      /\ (s, stdout w) = verdict (firstn 32 contents) n.
Proof.
  intros Hlen Hp Hfs Hread Hrun.
  apply run_sound in Hrun.
  inversion Hrun as
    [ Hlen'
    | p' e _ Hp' Hfs'
    | p' c' st' _ Hp' Hfs' Hrd
    | p' c' st' n _ Hp' Hfs' Hrd Hfirst E1
    | p' c' st' n _ Hp' Hfs' Hrd Hfirst E1 E2
    | p' c' st' n _ Hp' Hfs' Hrd Hfirst E1 E2 E3
    | p' c' st' n _ Hp' Hfs' Hrd Hfirst E1 E2 E3 ]; subst;
    try contradiction;
    try (exfalso; apply Hread; now exists p', c', st');
    rewrite Hp in Hp'; injection Hp' as <-;
    rewrite Hfs in Hfs'; try discriminate; injection Hfs' as <-;
    pose proof (read_secret_true _ _ _ _ Hrd) as Hmem;
    rewrite Hmem in *;
    (split; [exact Hmem|]); exists n; (split; [exact Hfirst|]);
    unfold verdict; cbv zeta; rewrite ?E1, ?E2, ?E3; reflexivity.
Qed.

(** No error but [EINTR] and at least 32 bytes: the read does not fail. *)
Lemma benign_reads (fuel : nat) (env : environment) (p : string)
      (contents : list byte) :
  nth_error (argv env) 1 = Some p ->
  fs env p = inr contents ->
  (32 <= length contents)%nat ->
  Forall benign (sched env) ->
  ~ read_fails fuel env.
Proof.
  intros Hp Hfs Hsz Hben (q & c & st' & Hq & Hfq & Hrd).
  rewrite Hp in Hq. injection Hq as <-.
  rewrite Hfs in Hfq. injection Hfq as <-.
  destruct (read_secret_ok _ _ _ _ _ Hsz Hben Hrd). discriminate.
Qed.

(** C4. Two runs on the same 32 bytes of secret, in neither of which the
    read of the file fails, write the same bytes to standard output and end
    the same way, whatever the name of the file, the way [read] hands the
    bytes over (short reads, interruptions) and the number of loop turns
    granted. *)
Theorem output_determined_by_secret
        (fuel1 fuel2 : nat) (env1 env2 : environment) (p1 p2 : string)
        (secret : list byte) (s1 s2 : status) (w1 w2 : world) :
  length secret = 32%nat ->
  length (argv env1) = 2%nat -> nth_error (argv env1) 1 = Some p1 ->
  fs env1 p1 = inr secret -> ~ read_fails fuel1 env1 ->
  length (argv env2) = 2%nat -> nth_error (argv env2) 1 = Some p2 ->
  fs env2 p2 = inr secret -> ~ read_fails fuel2 env2 ->
  run fuel1 env1 = Some (s1, w1) ->
  run fuel2 env2 = Some (s2, w2) ->
  stdout w1 = stdout w2 /\ s1 = s2.
Proof.
  intros Hsec Hl1 Hp1 Hf1 Hb1 Hl2 Hp2 Hf2 Hb2 Hr1 Hr2.
  destruct (run_verdict _ _ _ _ _ _ Hl1 Hp1 Hf1 Hb1 Hr1)
    as (_ & n1 & Hn1 & Hv1).
  destruct (run_verdict _ _ _ _ _ _ Hl2 Hp2 Hf2 Hb2 Hr2)
    as (_ & n2 & Hn2 & Hv2).
  assert (n1 = n2) by (eapply first_accepted_unique; eassumption). subst n2.
  rewrite <- Hv2 in Hv1. now injection Hv1.
Qed.

(** C10. A secret file longer than 32 bytes is read like the file made of
    its first 32 bytes: the run ends the same way in the same state.  With
    no read error but interruptions, those 32 bytes are the secret the run
    works with, and neither opening nor reading fails. *)
Theorem trailing_bytes_ignored
        (fuel : nat) (env : environment) (p : string) (contents : list byte) :
  length (argv env) = 2%nat ->
  nth_error (argv env) 1 = Some p ->
  fs env p = inr contents ->
  (32 < length contents)%nat ->
  let env' :=
    mk_environment (argv env)
      (fun q => if String.eqb q p then inr (firstn 32 contents) else fs env q)
      (sched env) in
  run fuel env = run fuel env'
  /\ (Forall benign (sched env) ->
      forall s w,
        run fuel env = Some (s, w) ->
        hsm_secret w = firstn 32 contents
        /\ ~ open_fails env
        /\ ~ read_fails fuel env).
Proof.
  intros Hlen Hp Hfs Hlong env'.
  split.
  - rewrite !run_eq. cbn [argv env']. rewrite Hlen, Hp. cbn [Nat.eqb negb].
    rewrite !load_hsm_eq. cbn [fs env']. rewrite String.eqb_refl, Hfs.
    pose proof (read_all_window fuel contents 32 0 (sched env) 0
                  (repeat x00 32) 0 32 ltac:(lia)) as Hwin.
    change (mk_io (mk_open_file contents 0 (sched env)) 0 (repeat x00 32))
      with (open_io env contents) in Hwin.
    change (mk_io (mk_open_file (firstn 32 contents) 0 (sched env)) 0
                  (repeat x00 32))
      with (open_io env' (firstn 32 contents)) in Hwin.
    destruct (read_all fuel (open_io env contents) 0 32) as [[b1 st1]|];
      destruct (read_all fuel (open_io env' (firstn 32 contents)) 0 32)
        as [[b2 st2]|]; cbn [seen] in Hwin; try discriminate;
      [|reflexivity].
    injection Hwin as -> Hm He.
    unfold loaded. rewrite Hm, He. reflexivity.
  - intros Hben s w Hrun.
    assert (Hread : ~ read_fails fuel env).
    { apply benign_reads with p contents; try assumption. lia. }
    destruct (run_verdict _ _ _ _ _ _ Hlen Hp Hfs Hread Hrun) as (Hsec & _).
    split; [exact Hsec|]. split; [|exact Hread].
    intros (q & e & Hq & Hfq). congruence.
Qed.

End Robustness.

(* ================================================================== *)
(** ** The theorems at work on concrete runs *)
(* ================================================================== *)

Module Examples.

Import Mock.

(** The secret arrives in two pieces with an interruption in between. *)
Definition slow_reads : list read_event := [RdChunk 9; RdErr 4; RdChunk 99].

Definition env_ok : environment := env_of argv2 secret32 slow_reads.

(** Another name, another schedule, the same 32 bytes. *)
Definition env_other : environment :=
  mk_environment ["dumpkeys"%string; "backup/secret"%string]
                 (fun _ => inr secret32) [RdErr 4; RdChunk 0].

Definition env_short : environment :=
  env_of argv2 (firstn 31 secret32) [RdChunk 3; RdErr 4].

Definition env_long : environment :=
  env_of argv2 (secret32 ++ [xff; xfe]) slow_reads.

Definition env_no_path : environment :=
  env_of ["clightning-dumpkeys"%string] secret32 [].

Definition world_of (r : option (status * world)) : world :=
  match r with
  | Some (_, w) => w
  | None => initial_world
  end.

Definition world_ok : world := world_of (run (L := harness) 40 env_ok).
Definition world_other : world := world_of (run (L := harness) 50 env_other).
Definition world_failing : world :=
  world_of (run (L := failing_harness) 40 env_ok).

Definition io_ok : io :=
  match read_all (L := failing_harness) 40 (open_io env_ok secret32) 0 32 with
  | Some (_, st) => st
  | None => open_io env_ok secret32
  end.

Definition world_populated : world :=
  match populate_secretstuff (L := harness) 5 initial_world with
  | Ret _ w => w
  | _ => initial_world
  end.

Lemma run_ok : run (L := harness) 40 env_ok = Some (Exited 0, world_ok).
Proof. vm_compute. reflexivity. Qed.

Lemma run_other :
  run (L := harness) 50 env_other = Some (Exited 0, world_other).
Proof. vm_compute. reflexivity. Qed.

Lemma run_failing :
  run (L := failing_harness) 40 env_ok = Some (Exited 1, world_failing).
Proof. vm_compute. reflexivity. Qed.

Lemma read_ok :
  read_all (L := failing_harness) 40 (open_io env_ok secret32) 0 32
  = Some (true, io_ok).
Proof. vm_compute. reflexivity. Qed.

Lemma populated :
  populate_secretstuff (L := harness) 5 initial_world = Ret tt world_populated.
Proof. vm_compute. reflexivity. Qed.

Lemma slow_reads_benign : Forall (benign (L := harness)) slow_reads.
Proof. repeat constructor. Qed.

Lemma run_long :
  run (L := harness) 40 env_long
  = Some (Exited 0, world_of (run (L := harness) 40 env_long)).
Proof. vm_compute. reflexivity. Qed.

(** The line of a re-rooted mainnet private key starts the way every
    root xprv does. *)
Lemma printed_line_has_root_prefix :
  exists rest, stdout world_ok = ("xprv9s21ZrQH143K" ++ rest)%string.
Proof. eexists. vm_compute. reflexivity. Qed.

Lemma third_seed_first (L : Lib) (secret : list byte) (v : Z) :
  accepted secret v 0 = false ->
  accepted secret v 1 = false ->
  forall j, (j < 2)%nat -> accepted secret v j = false.
Proof.
  intros H0 H1 j Hj. destruct j as [|[|j]]; [exact H0 | exact H1 | lia].
Qed.

End Examples.

Import Examples.

(** A successful run of the harness, and the line it prints. *)
Lemma output_is_rerooted_xprv_witness :
  run (L := Mock.harness) 40 env_ok = Some (Exited 0, world_ok)
  /\ exists line payload,
      stdout world_ok = (line ++ newline)%string
      /\ Base58.check_decode (sha256 (Lib := Mock.harness)) line = Some payload
      /\ firstn 9 payload = [x04; x88; xad; xe4; x00; x00; x00; x00; x00].
Proof.
  split; [exact run_ok|].
  destruct (output_is_rerooted_xprv (L := Mock.harness) 40 env_ok world_ok
              run_ok)
    as (line & payload & derived & Hout & _ & Hdec & _ & _ & _ & _ & Hpay & _).
  exists line, payload. split; [exact Hout|]. split; [exact Hdec|].
  rewrite Hpay. vm_compute. reflexivity.
Defined.

(** The harness turns down salts 0 and 1: the third candidate, made with
    salt 02 00 00 00, gives the master key. *)
Lemma seed_whitening_witness :
  (2 < 5)%nat
  /\ (forall j, (j < 2)%nat ->
        accepted (L := Mock.harness) (hsm_secret initial_world) 0 j = false)
  /\ accepted (L := Mock.harness) (hsm_secret initial_world) 0 2 = true
  /\ exists key w',
      seed_loop (L := Mock.harness) 5 tt 0 initial_world = Ret key w'
      /\ length (calls w') = 6%nat
      /\ nth_error (calls w') 4
         = Some (Call_hkdf_sha256 32 [x02; x00; x00; x00]
                   (hsm_secret initial_world)
                   (list_byte_of_string "bip32 seed")).
Proof.
  assert (H2 : (2 < 5)%nat) by lia.
  assert (Hrej : forall j, (j < 2)%nat ->
             accepted (L := Mock.harness) (hsm_secret initial_world) 0 j = false).
  { apply third_seed_first; vm_compute; reflexivity. }
  assert (Hacc : accepted (L := Mock.harness) (hsm_secret initial_world) 0 2
                 = true) by (vm_compute; reflexivity).
  split; [exact H2|]. split; [exact Hrej|]. split; [exact Hacc|].
  destruct (seed_whitening (L := Mock.harness) 5 2 initial_world H2 Hrej Hacc)
    as (Hrun & _ & Hlen & Hsalt & _).
  eexists _, _. split; [exact Hrun|].
  split; [exact Hlen|].
  destruct (Hsalt 2%nat (Nat.le_refl 2)) as (_ & _ & _ & Hcall & _).
  exact Hcall.
Defined.

(** Two derivations, and a key at depth 2 before it is re-rooted. *)
Lemma fixed_derivation_path_witness :
  populate_secretstuff (L := Mock.harness) 5 initial_world
  = Ret tt world_populated
  /\ length (filter is_derivation (calls world_populated)) = 2%nat
  /\ depth (bip32 world_populated) = 2.
Proof.
  split; [exact populated|].
  destruct (fixed_derivation_path (L := Mock.harness) 5 initial_world
              world_populated populated)
    as (n & master & child & _ & _ & _ & _ & _ & Hcalls).
  split; [rewrite Hcalls; reflexivity | vm_compute; reflexivity].
Defined.

(** Two runs that differ in everything but the secret. *)
Lemma output_determined_by_secret_witness :
  run (L := Mock.harness) 40 env_ok = Some (Exited 0, world_ok)
  /\ run (L := Mock.harness) 50 env_other = Some (Exited 0, world_other)
  /\ stdout world_ok = stdout world_other.
Proof.
  split; [exact run_ok|]. split; [exact run_other|].
  assert (H1 : ~ read_fails (L := Mock.harness) 40 env_ok).
  { intros (p & c & st' & Hp & Hfs & Hrd).
    injection Hp as <-. injection Hfs as <-.
    vm_compute in Hrd. discriminate. }
  assert (H2 : ~ read_fails (L := Mock.harness) 50 env_other).
  { intros (p & c & st' & Hp & Hfs & Hrd).
    injection Hp as <-. injection Hfs as <-.
    vm_compute in Hrd. discriminate. }
  refine (proj1 (output_determined_by_secret (L := Mock.harness)
            40 50 env_ok env_other "hsm_secret" "backup/secret" Mock.secret32
            (Exited 0) (Exited 0) world_ok world_other
            _ _ _ _ H1 _ _ _ H2 run_ok run_other)); reflexivity.
Defined.


(** A secret file of 31 bytes. *)
Lemma short_secret_file_witness :
  (length (firstn 31 Mock.secret32) < 32)%nat
  /\ exists w,
      run (L := Mock.harness) 40 env_short = Some (Exited 1, w)
      /\ stdout w = ""%string
      /\ calls w = [Call_open "hsm_secret"].
Proof.
  assert (Hshort : (length (firstn 31 Mock.secret32) < 32)%nat)
    by (vm_compute; lia).
  split; [exact Hshort|].
  destruct (short_secret_file (L := Mock.harness) env_short "hsm_secret"
              (firstn 31 Mock.secret32) eq_refl eq_refl eq_refl Hshort)
    as (w & e & Hrun & Hout & _ & Hcalls & _).
  exists w. split; [apply Hrun; vm_compute; lia|]. now split.
Defined.

(** The second derivation fails. *)
Lemma derivation_failure_is_fatal_witness :
  read_all (L := Mock.failing_harness) 40
           (open_io env_ok Mock.secret32) 0 32 = Some (true, io_ok)
  /\ first_accepted (L := Mock.failing_harness) 40 (io_mem io_ok) 2
  /\ exists w,
      run (L := Mock.failing_harness) 40 env_ok = Some (Exited 1, w)
      /\ stdout w = ""%string
      /\ stderr w = "Can't derive private bip32 key"%string.
Proof.
  assert (Hfirst : first_accepted (L := Mock.failing_harness) 40 (io_mem io_ok) 2).
  { split; [lia|]. split; [|vm_compute; reflexivity].
    apply third_seed_first; vm_compute; reflexivity. }
  split; [exact read_ok|]. split; [exact Hfirst|].
  destruct (derivation_failure_is_fatal (L := Mock.failing_harness)
              40 env_ok "hsm_secret" Mock.secret32 io_ok 2
              eq_refl eq_refl eq_refl read_ok Hfirst)
    as (w & Hrun & Hout & Herr & _).
  { right. vm_compute. split; [reflexivity | discriminate]. }
  exists w. split; [exact Hrun|]. split; [exact Hout|].
  rewrite Herr. vm_compute. reflexivity.
Defined.

(** A short read, an interruption, the rest. *)
Lemma read_all_correct_witness :
  (0 + 32 <= length (io_mem (open_io env_ok Mock.secret32)))%nat
  /\ exists st',
      read_all (L := Mock.harness) 40 (open_io env_ok Mock.secret32) 0 32
      = Some (true, st')
      /\ io_mem st' = Mock.secret32.
Proof.
  assert (Hbuf : (0 + 32 <= length (io_mem (open_io env_ok Mock.secret32)))%nat)
    by (vm_compute; lia).
  split; [exact Hbuf|].
  destruct (read_all_correct (L := Mock.harness)
              (open_io env_ok Mock.secret32) 0 32 Hbuf)
    as (b & st' & Hrun & Hiff & _ & Hmem & _).
  specialize (Hrun 40%nat ltac:(vm_compute; lia)).
  assert (Hb : b = true).
  { pose proof Hrun as H. vm_compute in H. now injection H. }
  subst b. exists st'. split; [exact Hrun|].
  rewrite Hmem. apply proj1 in Hiff. rewrite (Hiff eq_refl).
  reflexivity.
Defined.

(** Two bytes too many. *)
Lemma trailing_bytes_ignored_witness :
  (32 < length (Mock.secret32 ++ [xff; xfe]))%nat
  /\ run (L := Mock.harness) 40 env_long = run (L := Mock.harness) 40 env_ok
  /\ hsm_secret (world_of (run (L := Mock.harness) 40 env_long))
     = Mock.secret32.
Proof.
  assert (Hlong : (32 < length (Mock.secret32 ++ [xff; xfe]))%nat)
    by (vm_compute; lia).
  split; [exact Hlong|].
  destruct (trailing_bytes_ignored (L := Mock.harness) 40 env_long
              "hsm_secret" (Mock.secret32 ++ [xff; xfe])
              eq_refl eq_refl eq_refl Hlong) as [Hsame Hsecret].
  split.
  - rewrite Hsame. vm_compute. reflexivity.
  - destruct (Hsecret slow_reads_benign _ _ run_long) as [-> _].
    vm_compute. reflexivity.
Defined.


(* ================================================================== *)
(** ** More about [read_all] *)
(* ================================================================== *)

Section ReadAllMore.

Context {L : Lib}.

Lemma length_firstn_le {A} (n : nat) (l : list A) :
  (n <= length l)%nat -> length (firstn n l) = n.
Proof. intros H. rewrite length_firstn. lia. Qed.

Lemma firstn_splice (buf src : list byte) (off : nat) :
  (off <= length buf)%nat -> firstn off (splice buf off src) = firstn off buf.
Proof.
  intros H. unfold splice.
  rewrite firstn_app, length_firstn, Nat.min_l by lia.
  rewrite Nat.sub_diag. cbn [firstn]. rewrite app_nil_r.
  apply firstn_all2. rewrite length_firstn. lia.
Qed.

Lemma skipn_splice (buf src : list byte) (off k : nat) :
  (off + length src <= k)%nat -> (off <= length buf)%nat ->
  skipn k (splice buf off src) = skipn k buf.
Proof.
  intros Hk Hoff. unfold splice.
  rewrite !skipn_app, length_firstn, Nat.min_l by lia.
  rewrite (skipn_all2 (firstn off buf)) by (rewrite length_firstn; lia).
  rewrite (skipn_all2 src) by lia.
  cbn [app]. rewrite skipn_skipn. f_equal. lia.
Qed.

(** X1. [read_all] stays inside the window it is given: the buffer keeps
    its length, the bytes before [data] and from [data + size] on are the
    ones that were there, the file itself is not changed, and the offset
    moves forward by at most [size] bytes, whatever is returned. *)
Theorem read_all_keeps_to_window
        (fuel : nat) (st : io) (data size : nat) (b : bool) (st' : io) :
  read_all fuel st data size = Some (b, st') ->
  (data + size <= length (io_mem st))%nat ->
  length (io_mem st') = length (io_mem st)
  /\ firstn data (io_mem st') = firstn data (io_mem st)
  /\ skipn (data + size) (io_mem st') = skipn (data + size) (io_mem st)
  /\ f_data (io_file st') = f_data (io_file st)
  /\ (f_pos (io_file st) <= f_pos (io_file st') <= f_pos (io_file st) + size)%nat.
Proof.
  intros Hrun Hbuf.
  destruct (read_all_sound _ _ _ _ _ _ Hrun Hbuf)
    as (H1 & H2 & H3 & H4 & H5 & _ & _).
  unfold consumed in *.
  set (n := (f_pos (io_file st') - f_pos (io_file st))%nat) in *.
  assert (Hn : length (firstn n (unread (io_file st))) = n)
    by now apply length_firstn_le.
  rewrite H5.
  split; [apply length_splice; rewrite Hn; lia|].
  split; [apply firstn_splice; lia|].
  split; [apply skipn_splice; rewrite ?Hn; lia|].
  split; [exact H1|]. lia.
Qed.

(** X2. Two calls in a row that both succeed read one stretch of the
    file: after [read_all(fd, data, a)] and [read_all(fd, data + a, b)] the
    window [data .. data + a + b) holds the next [a + b] bytes of the file
    in order, and the offset has moved by [a + b]. *)
Theorem read_all_twice
        (fuel1 fuel2 : nat) (st st1 st2 : io) (data a b : nat) :
  (data + a + b <= length (io_mem st))%nat ->
  read_all fuel1 st data a = Some (true, st1) ->
  read_all fuel2 st1 (data + a) b = Some (true, st2) ->
  io_mem st2
  = splice (io_mem st) data (firstn (a + b) (unread (io_file st)))
  /\ f_pos (io_file st2) = (f_pos (io_file st) + a + b)%nat.
Proof.
  intros Hbuf Hr1 Hr2.
  destruct (read_all_sound _ _ _ _ _ _ Hr1 ltac:(lia))
    as (D1 & P1 & _ & U1 & M1 & T1 & _).
  assert (Hlen1 : length (io_mem st1) = length (io_mem st)).
  { rewrite M1. apply length_splice.
    rewrite length_firstn_le by assumption. unfold consumed.
    assert ((f_pos (io_file st1) - f_pos (io_file st))%nat = a) by now apply T1.
    lia. }
  destruct (read_all_sound _ _ _ _ _ _ Hr2 ltac:(lia))
    as (D2 & P2 & _ & U2 & M2 & T2 & _).
  unfold consumed in *.
  assert (Ea : (f_pos (io_file st1) - f_pos (io_file st))%nat = a)
    by now apply T1.
  assert (Eb : (f_pos (io_file st2) - f_pos (io_file st1))%nat = b)
    by now apply T2.
  rewrite Ea in *. rewrite Eb in *.
  split; [|lia].
  assert (HU : unread (io_file st1) = skipn a (unread (io_file st))).
  { unfold unread. rewrite D1, skipn_skipn. f_equal. lia. }
  rewrite M2, M1, HU.
  assert (Hla : length (firstn a (unread (io_file st))) = a)
    by now apply length_firstn_le.
  rewrite <- Hla at 2.
  rewrite splice_splice by (rewrite Hla; lia).
  now rewrite firstn_add.
Qed.

Lemma read_all_errno (fuel : nat) :
  forall st data size b st',
    read_all fuel st data size = Some (b, st') ->
    io_errno st' = io_errno st
    \/ In (RdErr (io_errno st')) (f_sched (io_file st)).
Proof.
  induction fuel as [|fuel IH]; intros st data size b st' Hrun;
    [discriminate|].
  cbn [read_all] in Hrun.
  destruct (size =? 0)%nat.
  { injection Hrun as <- <-. now left. }
  pose proof (sys_read_outcome st data size) as Hout.
  destruct (sys_read st data size) as [done st1]. cbn [fst snd] in Hout.
  inversion Hout as [e s Hs Hd Hst1 | n s Hs Hne Hn HnU Hn0 _ Hd Hst1];
    subst done; clear Hout.
  - right. rewrite Hs.
    change (-1 <? 0) with true in Hrun. change (-1 <=? 0) with true in Hrun.
    cbn [andb] in Hrun. rewrite <- Hst1 in Hrun. cbn [io_errno] in Hrun.
    destruct (e =? EINTR).
    + rewrite Hst1 in Hrun. apply IH in Hrun. subst st1. cbn in Hrun.
      destruct Hrun as [->|Hin]; [now left | now right].
    + injection Hrun as <- <-. now left.
  - destruct (Z.ltb_spec (Z.of_nat n) 0) as [?|_]; [lia|].
    cbn [andb] in Hrun.
    destruct (Z.of_nat n <=? 0).
    + injection Hrun as <- <-. subst st1. now left.
    + apply IH in Hrun. subst st1. cbn in Hrun.
      destruct Hrun as [->|Hin]; [now left|right].
      apply in_tl. now rewrite <- Hs.
Qed.

(** X3. [read_all] never sets [errno] itself: on return [errno] is what it
    was on entry, or the number left by a call of [read] that failed during
    this call.  So when no call of [read] fails, [errno] is untouched, and a
    false return then means end of file. *)
Theorem read_all_leaves_errno
        (fuel : nat) (st : io) (data size : nat) (b : bool) (st' : io) :
  read_all fuel st data size = Some (b, st') ->
  (data + size <= length (io_mem st))%nat ->
  (io_errno st' = io_errno st
   \/ In (RdErr (io_errno st')) (f_sched (io_file st)))
  /\ ((forall e, ~ In (RdErr e) (f_sched (io_file st))) ->
      io_errno st' = io_errno st
      /\ (b = false -> unread (io_file st') = [] /\ size <> 0%nat)).
Proof.
  intros Hrun Hbuf.
  pose proof (read_all_errno _ _ _ _ _ _ Hrun) as He.
  split; [exact He|].
  intros Hnone.
  split.
  - destruct He as [He|He]; [exact He | now apply Hnone in He].
  - intros ->.
    destruct (read_all_sound _ _ _ _ _ _ Hrun Hbuf)
      as (_ & _ & _ & _ & _ & T & C).
    split.
    + destruct (C eq_refl) as [HU|[_ Hin]]; [exact HU | now apply Hnone in Hin].
    + intros ->. destruct fuel; [discriminate|]. cbn in Hrun. discriminate.
Qed.

End ReadAllMore.

(* ================================================================== *)
(** ** More about the seed loop and [populate_secretstuff] *)
(* ================================================================== *)

Section WhiteningMore.

Context {L : Lib}.

(** X11. The seed loop returns if and only if the library accepts the
    candidate of one of the 2^32 salt values: the salt is a 32-bit counter,
    so attempt 2^32 repeats attempt 0, and when all 2^32 candidates are
    turned down the loop goes on for ever.  When it returns it has made at
    most 2^32 attempts, all but the last turned down, and the key is the
    one of the last, the first accepted attempt. *)
Theorem seed_loop_terminates_iff (w : world) :
  let secret := hsm_secret w in
  let v := bip32_privkey_version (key_version w) in
  ((exists fuel key w', seed_loop fuel ctx0 0 w = Ret key w')
   <-> (exists k, Z.of_nat k < 2 ^ 32 /\ accepted secret v k = true))
  /\ (forall fuel key w',
         seed_loop fuel ctx0 0 w = Ret key w' ->
         exists n,
           Z.of_nat n < 2 ^ 32
           /\ (forall j, (j < n)%nat -> accepted secret v j = false)
           /\ accepted secret v n = true
           /\ key = snd (master_try secret v n)
           /\ calls w' = calls w ++ whitening_calls secret v n)
  /\ ((forall k, Z.of_nat k < 2 ^ 32 -> accepted secret v k = false) ->
      forall fuel, seed_loop fuel ctx0 0 w = OutOfFuel).
Proof.
  intros secret v.
  assert (Hret : forall fuel key w',
             seed_loop fuel ctx0 0 w = Ret key w' ->
             exists n,
               Z.of_nat n < 2 ^ 32
               /\ (forall j, (j < n)%nat -> accepted secret v j = false)
               /\ accepted secret v n = true
               /\ key = snd (master_try secret v n)
               /\ calls w' = calls w ++ whitening_calls secret v n).
  { intros fuel key w' Hrun.
    pose proof (seed_loop_inv fuel 0 w) as H. cbv zeta in H.
    change (salt_of_attempt (N.of_nat 0)) with 0 in H.
    rewrite Hrun in H. fold secret v in H.
    destruct H as (n & Hn & Hrej & Hacc & Hkey & Hw). cbn [Nat.add] in *.
    assert (Hrej' : forall j, (j < n)%nat -> accepted secret v j = false)
      by (intros j Hj; apply Hrej; lia).
    exists n. split; [exact (first_accepted_bound secret v n Hrej' Hacc)|].
    split; [exact Hrej'|].
    split; [exact Hacc|]. split; [exact Hkey|]. now rewrite Hw. }
  split; [split|split].
  - intros (fuel & key & w' & Hrun).
    destruct (Hret _ _ _ Hrun) as (n & Hn & _ & Hacc & _). now exists n.
  - intros (k & _ & Hacc).
    destruct (least_accepted _ _ _ Hacc) as (n & _ & Hrej & Hn).
    exists (S n). eexists _, _.
    exact (seed_loop_run (S n) n w (Nat.lt_succ_diag_r n) Hrej Hn).
  - intros fuel key w' Hrun. exact (Hret _ _ _ Hrun).
  - intros Hnone fuel.
    pose proof (seed_loop_inv fuel 0 w) as H. cbv zeta in H.
    change (salt_of_attempt (N.of_nat 0)) with 0 in H.
    fold secret v in H.
    destruct (seed_loop fuel ctx0 0 w) as [key w' | | |];
      try contradiction; [|reflexivity].
    exfalso.
    destruct H as (n & _ & _ & Hacc & _). cbn [Nat.add] in Hacc.
    rewrite <- accepted_first_round in Hacc.
    rewrite Hnone in Hacc by apply first_round_bound. discriminate.
Qed.

(** X10. [populate_secretstuff] never aborts: its two asserts look at the
    version pair it has just stored.  It leaves the secret, standard output
    and [errno] as they were, whether it returns or exits; it exits with
    code 1 only, and when it returns it has written nothing to standard
    error and the version pair is the mainnet one. *)
Theorem populate_secretstuff_frame (fuel : nat) (w : world) :
  match populate_secretstuff fuel w with
  | Ret _ w' =>
      hsm_secret w' = hsm_secret w /\ stdout w' = stdout w
      /\ errno w' = errno w /\ stderr w' = stderr w
      /\ key_version w' = main_pair
  | Exit c w' =>
      c = 1
      /\ hsm_secret w' = hsm_secret w /\ stdout w' = stdout w
      /\ errno w' = errno w
      /\ stderr w' <> stderr w
  | Abort _ => False
  | OutOfFuel => True
  end.
Proof.
  rewrite populate_secretstuff_eq.
  pose proof (seed_loop_inv fuel 0 (set_key_version w main_pair)) as H.
  cbv zeta in H. change (salt_of_attempt (N.of_nat 0)) with 0 in H.
  destruct (seed_loop fuel ctx0 0 (set_key_version w main_pair))
    as [master w1 | | |]; try contradiction; [|exact I].
  destruct H as (n & _ & _ & _ & _ & ->). cbv zeta.
  assert (Hne : forall (s : string) c t, (s ++ String c t)%string <> s).
  { intros s c t. induction s as [|a s IHs]; cbn; [discriminate|].
    intros E. injection E as E. now apply IHs. }
  destruct (fst (derive master) =? WALLY_OK).
  - destruct (fst (derive (snd (derive master))) =? WALLY_OK); cbn.
    + now repeat split.
    + repeat split. apply Hne.
  - cbn. repeat split. apply Hne.
Qed.

End WhiteningMore.

(* ================================================================== *)
(** ** More about whole runs *)
(* ================================================================== *)

Section RunsMore.

Context {L : Lib}.

Lemma skipn_repeat {A} (x : A) (n m : nat) :
  skipn n (repeat x m) = repeat x (m - n).
Proof.
  revert m. induction n as [|n IH]; intros m.
  - now rewrite Nat.sub_0_r.
  - destruct m as [|m]; [reflexivity|]. cbn. apply IH.
Qed.

(** X6. If the secret file cannot be opened the process exits with code 1
    at once, whatever the read schedule and the number of loop turns: the
    message is "opening: " and the reason for [errno], nothing goes to
    standard output, the secret is still zero and [open] is the only call
    made. *)
Theorem open_failure
        (fuel : nat) (env : environment) (p : string) (e : Z) :
  length (argv env) = 2%nat ->
  nth_error (argv env) 1 = Some p ->
  fs env p = inl e ->
  exists w,
    run fuel env = Some (Exited 1, w)
    /\ stderr w = ("opening: " ++ strerror e ++ newline)%string
    /\ stdout w = ""%string
    /\ errno w = e
    /\ hsm_secret w = repeat x00 32
    /\ calls w = [Call_open p].
Proof.
  intros Hlen Hp Hfs. eexists. split.
  - apply run_complete. exact (End_open fuel env p e Hlen Hp Hfs).
  - now repeat split.
Qed.

(** X4. A secret file of fewer than 32 bytes, read without any failing
    call: [read_all] stops at end of file, where [read] does not set
    [errno], so the reason printed after "reading: " is not that of a
    failed read: it is the one for the [errno] from before the reading,
    which is 0, the value the process starts with and the successful
    [open] leaves.  The bytes that were there have been copied: the secret
    holds the file followed by zero bytes. *)
Theorem truncated_file_report
        (env : environment) (p : string) (contents : list byte) :
  length (argv env) = 2%nat ->
  nth_error (argv env) 1 = Some p ->
  fs env p = inr contents ->
  (length contents < 32)%nat ->
  (forall e, ~ In (RdErr e) (sched env)) ->
  exists w,
    (forall fuel,
        (length (sched env) + 32 < fuel)%nat ->
        run fuel env = Some (Exited 1, w))
    /\ stderr w = ("reading: " ++ strerror 0 ++ newline)%string
    /\ errno w = 0
    /\ hsm_secret w = contents ++ repeat x00 (32 - length contents)
    /\ stdout w = ""%string.
Proof.
  intros Hlen Hp Hfs Hshort Hnone.
  destruct (read_all_terminates (S (length (sched env) + 32))
              (open_io env contents) 0 32 ltac:(cbn; lia)) as [[b st'] Hrd].
  assert (b = false) by (eapply read_secret_short; eassumption). subst b.
  pose proof (read_all_errno _ _ _ _ _ _ Hrd) as He.
  assert (He0 : io_errno st' = 0).
  { destruct He as [He|He]; [exact He | now apply Hnone in He]. }
  destruct (read_all_sound _ _ _ _ _ _ Hrd ltac:(cbn; lia))
    as (D & _ & _ & U & M & _ & C).
  unfold consumed, unread in *.
  cbn [open_io io_file io_mem f_pos f_data f_sched skipn] in *.
  rewrite Nat.sub_0_r in *.
  assert (Hpos : f_pos (io_file st') = length contents).
  { destruct (C eq_refl) as [HU|[_ Hin]]; [|now apply Hnone in Hin].
    rewrite D in HU.
    assert (Hl : length (skipn (f_pos (io_file st')) contents) = 0%nat)
      by now rewrite HU.
    rewrite length_skipn in Hl. lia. }
  assert (Hmem : io_mem st' = contents ++ repeat x00 (32 - length contents)).
  { rewrite M, Hpos, firstn_all. unfold splice.
    change (firstn 0 (repeat x00 32)) with (@nil byte).
    cbn [app Nat.add]. now rewrite skipn_repeat. }
  exists (add_stderr (loaded env p st')
            ("reading: " ++ strerror (io_errno st') ++ newline)).
  split.
  - intros fuel Hfuel. apply run_complete.
    apply End_read with contents; try assumption.
    apply read_all_more_fuel with (1 := Hrd). lia.
  - cbn. rewrite He0. now repeat split.
Qed.

(** X5. When the file holds the 32 bytes and reading fails all the same,
    a call of [read] has failed with an [errno] other than [EINTR]: that
    number is what the message after "reading: " explains and what [errno]
    holds at exit; the exit code is 1 and nothing is printed. *)
Theorem read_error_report
        (fuel : nat) (env : environment) (p : string) (contents : list byte)
        (s : status) (w : world) :
  length (argv env) = 2%nat ->
  nth_error (argv env) 1 = Some p ->
  fs env p = inr contents ->
  (32 <= length contents)%nat ->
  read_fails fuel env ->
  run fuel env = Some (s, w) ->
  s = Exited 1
  /\ errno w <> EINTR
  /\ In (RdErr (errno w)) (sched env)
  /\ stderr w = ("reading: " ++ strerror (errno w) ++ newline)%string
  /\ stdout w = ""%string
  /\ calls w = [Call_open p].
Proof.
  intros Hlen Hp Hfs Hsz (q & c & st' & Hq & Hfq & Hrd) Hrun.
  rewrite Hp in Hq. injection Hq as <-.
  rewrite Hfs in Hfq. injection Hfq as <-.
  pose proof (run_complete _ _ _ _
                (End_read fuel env p contents st' Hlen Hp Hfs Hrd)) as Hrun'.
  rewrite Hrun' in Hrun. injection Hrun as <- <-.
  destruct (read_all_sound _ _ _ _ _ _ Hrd ltac:(cbn; lia))
    as (D & _ & B & _ & _ & T & C).
  unfold consumed, unread in *.
  cbn [open_io io_file io_mem f_pos f_data f_sched] in *.
  rewrite Nat.sub_0_r in *.
  destruct (C eq_refl) as [HU|[Hne Hin]].
  - exfalso. rewrite D in HU.
    assert (Hl : length (skipn (f_pos (io_file st')) contents) = 0%nat)
      by now rewrite HU.
    rewrite length_skipn in Hl.
    assert (f_pos (io_file st') = 32%nat) by lia.
    assert (false = true) by now apply T.
    discriminate.
  - cbn. now repeat split.
Qed.

(** What two worlds have in common when they differ at most in the name
    of the program and in standard error. *)
Definition same_but_stderr (w1 w2 : world) : Prop :=
  hsm_secret w1 = hsm_secret w2
  /\ bip32 w1 = bip32 w2
  /\ key_version w1 = key_version w2
  /\ errno w1 = errno w2
  /\ stdout w1 = stdout w2
  /\ calls w1 = calls w2.

Lemma same_file_same_ending
      (fuel : nat) (env1 env2 : environment) (p : string)
      (s : status) (w1 : world) :
  length (argv env1) = 2%nat ->
  length (argv env2) = 2%nat ->
  nth_error (argv env1) 1 = Some p ->
  nth_error (argv env2) 1 = Some p ->
  fs env1 p = fs env2 p ->
  sched env1 = sched env2 ->
  ending fuel env1 s w1 ->
  exists w2,
    ending fuel env2 s w2
    /\ same_but_stderr w1 w2
    /\ (s <> Aborted -> stderr w1 = stderr w2)
    /\ (s = Aborted ->
        stderr w1 = serialize_assert (program_name env1)
        /\ stderr w2 = serialize_assert (program_name env2))
    /\ (program_name env1 = program_name env2 -> w1 = w2).
Proof.
  intros Hl1 Hl2 Hp1 Hp2 Hfs Hsched Hend.
  assert (Hio : forall contents, open_io env1 contents = open_io env2 contents)
    by (intros contents; unfold open_io; now rewrite Hsched).
  assert (Hname : program_name env1 = program_name env2 ->
                  started env1 = started env2)
    by (intros E; unfold started; now rewrite E).
  destruct Hend as
    [ Hlen
    | q e Hlen Hq Hf
    | q contents st' Hlen Hq Hf Hrd
    | q contents st' n Hlen Hq Hf Hrd Hfirst E1
    | q contents st' n Hlen Hq Hf Hrd Hfirst E1 E2
    | q contents st' n Hlen Hq Hf Hrd Hfirst E1 E2 E3
    | q contents st' n Hlen Hq Hf Hrd Hfirst E1 E2 E3 ];
    try (rewrite Hp1 in Hq; injection Hq as <-; rewrite Hfs in Hf);
    try rewrite Hio in Hrd.
  - contradiction.
  - eexists. split; [exact (End_open fuel env2 p e Hl2 Hp2 Hf)|].
    split; [now repeat split|]. split; [reflexivity|].
    split; [discriminate|].
    intros E. unfold opened. now rewrite (Hname E).
  - eexists. split; [exact (End_read fuel env2 p contents st' Hl2 Hp2 Hf Hrd)|].
    split; [now repeat split|]. split; [reflexivity|].
    split; [discriminate|].
    intros E. unfold loaded, opened. now rewrite (Hname E).
  - eexists. split.
    { exact (End_derive_child fuel env2 p contents st' n
               Hl2 Hp2 Hf Hrd Hfirst E1). }
    split; [now repeat split|]. split; [reflexivity|].
    split; [discriminate|].
    intros E. unfold whitened, loaded, opened. now rewrite (Hname E).
  - eexists. split.
    { exact (End_derive_private fuel env2 p contents st' n
               Hl2 Hp2 Hf Hrd Hfirst E1 E2). }
    split; [now repeat split|]. split; [reflexivity|].
    split; [discriminate|].
    intros E. unfold derived, whitened, loaded, opened. now rewrite (Hname E).
  - eexists. split.
    { exact (End_assert fuel env2 p contents st' n
               Hl2 Hp2 Hf Hrd Hfirst E1 E2 E3). }
    split; [now repeat split|].
    split; [intros H; now contradiction H|].
    split; [intros _; now split|].
    intros E. unfold derived, whitened, loaded, opened.
    now rewrite (Hname E), E.
  - eexists. split.
    { exact (End_success fuel env2 p contents st' n
               Hl2 Hp2 Hf Hrd Hfirst E1 E2 E3). }
    split; [now repeat split|]. split; [reflexivity|].
    split; [discriminate|].
    intros E. unfold derived, whitened, loaded, opened. now rewrite (Hname E).
Qed.

(** X7. Of its environment the process looks at [argv[1]], at the file of
    that name and at the read schedule; [argv[0]] it never looks at, and
    the C library uses it in one place only, the diagnostic of a failed
    assert.  So two processes started with the same path, the same file
    under it and the same read schedule end in the same way, with the same
    calls, the same standard output, secret, key and [errno], whatever
    else can be opened.  Standard error is the same as well unless they
    are aborted: then each holds the diagnostic made with its own name.
    Started under the same name they end in the same state. *)
Theorem only_the_named_file_matters
        (fuel : nat) (env1 env2 : environment) (p : string) :
  length (argv env1) = 2%nat ->
  length (argv env2) = 2%nat ->
  nth_error (argv env1) 1 = Some p ->
  nth_error (argv env2) 1 = Some p ->
  fs env1 p = fs env2 p ->
  sched env1 = sched env2 ->
  (run fuel env1 = None <-> run fuel env2 = None)
  /\ forall s w1,
      run fuel env1 = Some (s, w1) ->
      exists w2,
        run fuel env2 = Some (s, w2)
        /\ same_but_stderr w1 w2
        /\ (s <> Aborted -> stderr w1 = stderr w2)
        /\ (s = Aborted ->
            stderr w1 = serialize_assert (program_name env1)
            /\ stderr w2 = serialize_assert (program_name env2))
        /\ (program_name env1 = program_name env2 -> w1 = w2).
Proof.
  intros Hl1 Hl2 Hp1 Hp2 Hfs Hsched.
  assert (Hto : forall s w1,
             run fuel env1 = Some (s, w1) ->
             exists w2, run fuel env2 = Some (s, w2)
               /\ same_but_stderr w1 w2
               /\ (s <> Aborted -> stderr w1 = stderr w2)
               /\ (s = Aborted ->
                   stderr w1 = serialize_assert (program_name env1)
                   /\ stderr w2 = serialize_assert (program_name env2))
               /\ (program_name env1 = program_name env2 -> w1 = w2)).
  { intros s w1 Hrun. apply run_sound in Hrun.
    destruct (same_file_same_ending fuel env1 env2 p s w1
                Hl1 Hl2 Hp1 Hp2 Hfs Hsched Hrun) as (w2 & Hend & H).
    exists w2. split; [now apply run_complete | exact H]. }
  split; [|exact Hto].
  split; intros Hnone.
  - destruct (run fuel env2) as [[s w2]|] eqn:Hrun; [|reflexivity].
    apply run_sound in Hrun.
    destruct (same_file_same_ending fuel env2 env1 p s w2
                Hl2 Hl1 Hp2 Hp1 (eq_sym Hfs) (eq_sym Hsched) Hrun)
      as (w1 & Hend & _).
    apply run_complete in Hend. rewrite Hend in Hnone. discriminate.
  - destruct (run fuel env1) as [[s w1]|] eqn:Hrun; [|reflexivity].
    destruct (Hto s w1 eq_refl) as (w2 & Hrun2 & _).
    rewrite Hrun2 in Hnone. discriminate.
Qed.

(** The library calls that follow the seed loop, in program order. *)
Definition late_calls (secret : list byte) (n : nat) : list call :=
  let master := master_key secret n in
  let child := snd (derive master) in
  let key := printed_key secret n in
  [ derive_call master;
    derive_call child;
    Call_bip32_key_serialize key BIP32_FLAG_KEY_PRIVATE;
    Call_wally_base58_from_bytes (serialized key BIP32_FLAG_KEY_PRIVATE)
                                 BASE58_FLAG_CHECKSUM ].


(** X9. What reaches the two output streams.  Standard output stays empty
    unless the run exits with code 0, and then standard error is empty.
    A run that exits with another code has written one of five texts to
    standard error: the usage line (code 42), or "opening: " or "reading: "
    with the reason for the final [errno], or one of the two derivation
    messages (code 1).  None of them is made from the bytes of the
    secret. *)
Theorem output_streams
        (fuel : nat) (env : environment) (s : status) (w : world) :
  run fuel env = Some (s, w) ->
  (s <> Exited 0 -> stdout w = ""%string)
  /\ (s = Exited 0 -> stderr w = ""%string)
  /\ (s = Exited 42 -> stderr w = usage_text)
  /\ (s = Exited 1 ->
      stderr w = ("opening: " ++ strerror (errno w) ++ newline)%string
      \/ stderr w = ("reading: " ++ strerror (errno w) ++ newline)%string
      \/ stderr w = "Can't derive child bip32 key"%string
      \/ stderr w = "Can't derive private bip32 key"%string).
Proof.
  intros Hrun. apply run_sound in Hrun.
  inversion Hrun; subst; repeat split;
    try (intros H'; try discriminate; try (now contradiction H')); cbn; auto.
Qed.

(** X12. If the library refuses to serialize the re-rooted key, the
    assert in [dump_xpriv] stops the process: it is aborted, standard
    output is empty, and the serialization is its last call, so that
    nothing was encoded. *)
Theorem serialization_failure_aborts
        (fuel : nat) (env : environment) (p : string) (contents : list byte)
        (st' : io) (n : nat) :
  length (argv env) = 2%nat ->
  nth_error (argv env) 1 = Some p ->
  fs env p = inr contents ->
  read_all fuel (open_io env contents) 0 32 = Some (true, st') ->
  first_accepted fuel (io_mem st') n ->
  let secret := io_mem st' in
  fst (derive (master_key secret n)) = WALLY_OK ->
  fst (derive (snd (derive (master_key secret n)))) = WALLY_OK ->
  serializable (printed_key secret n) BIP32_FLAG_KEY_PRIVATE = false ->
  exists w,
    run fuel env = Some (Aborted, w)
    /\ stdout w = ""%string
    /\ calls w = Call_open p
                   :: whitening_calls secret BIP32_VER_MAIN_PRIVATE n
                   ++ firstn 3 (late_calls secret n).
Proof.
  intros Hlen Hp Hfs Hrd Hfirst secret E1 E2 E3.
  apply Z.eqb_eq in E1, E2.
  eexists. split.
  - apply run_complete.
    exact (End_assert fuel env p contents st' n
             Hlen Hp Hfs Hrd Hfirst E1 E2 E3).
  - cbn. split; [reflexivity|].
    rewrite <- ?app_assoc. reflexivity.
Qed.

(** X13. The way through: a file of at least 32 bytes, no failing read
    but interruptions, attempt [n] the first the library accepts, both
    derivations and the serialization successful.  Then the process ends
    with exit code 0 as soon as it is granted enough loop turns, and what
    it prints is the line of the key derived from the first 32 bytes. *)
Theorem successful_run
        (env : environment) (p : string) (contents : list byte) (n : nat) :
  length (argv env) = 2%nat ->
  nth_error (argv env) 1 = Some p ->
  fs env p = inr contents ->
  (32 <= length contents)%nat ->
  Forall benign (sched env) ->
  let secret := firstn 32 contents in
  (forall j, (j < n)%nat -> accepted secret BIP32_VER_MAIN_PRIVATE j = false) ->
  accepted secret BIP32_VER_MAIN_PRIVATE n = true ->
  fst (derive (master_key secret n)) = WALLY_OK ->
  fst (derive (snd (derive (master_key secret n)))) = WALLY_OK ->
  serializable (printed_key secret n) BIP32_FLAG_KEY_PRIVATE = true ->
  exists w,
    (forall fuel,
        (length (sched env) + 32 < fuel)%nat -> (n < fuel)%nat ->
        run fuel env = Some (Exited 0, w))
    /\ stdout w = (printed_line secret n ++ newline)%string
    /\ stderr w = ""%string
    /\ hsm_secret w = secret
    /\ bip32 w = printed_key secret n.
Proof.
  intros Hlen Hp Hfs Hsz Hben secret Hrej Hacc E1 E2 E3.
  apply Z.eqb_eq in E1, E2.
  destruct (read_all_terminates (S (length (sched env) + 32))
              (open_io env contents) 0 32 ltac:(cbn; lia)) as [[b st'] Hrd].
  destruct (read_secret_ok _ _ _ _ _ Hsz Hben Hrd) as [-> Hmem].
  fold secret in Hmem.
  eexists. split.
  - intros fuel Hfuel Hn. apply run_complete.
    apply (End_success fuel env p contents st' n Hlen Hp Hfs);
      rewrite ?Hmem; try assumption.
    + apply read_all_more_fuel with (1 := Hrd). lia.
    + split; [exact Hn|]. now split.
  - cbn. rewrite Hmem. now repeat split.
Qed.

End RunsMore.

(* ================================================================== *)
(** ** Further runs of the harness *)
(* ================================================================== *)

Module MoreExamples.

Import Mock.

(** A buffer of 40 bytes 0xFF, and a file that arrives in pieces. *)
Definition io_buffer : io :=
  mk_io (mk_open_file secret32 0 slow_reads) 0 (repeat xff 40).

Definition io_of (r : option (bool * io)) : io :=
  match r with
  | Some (_, st) => st
  | None => io_buffer
  end.

Definition io_first : io := io_of (read_all (L := harness) 40 io_buffer 4 10).
Definition io_second : io := io_of (read_all (L := harness) 40 io_first 14 22).

Lemma read_first :
  read_all (L := harness) 40 io_buffer 4 10 = Some (true, io_first).
Proof. vm_compute. reflexivity. Qed.

Lemma read_second :
  read_all (L := harness) 40 io_first 14 22 = Some (true, io_second).
Proof. vm_compute. reflexivity. Qed.

(** The path names nothing. *)
Definition env_missing : environment :=
  env_of ["clightning-dumpkeys"%string; "nowhere"%string] secret32 slow_reads.

(** Twenty bytes, and no failing read. *)
Definition env_truncated : environment :=
  env_of argv2 (firstn 20 secret32) [RdChunk 7].

(** The device fails after nine bytes. *)
Definition env_io_error : environment :=
  env_of argv2 secret32 [RdChunk 9; RdErr 5].

Definition world_io_error : world := world_of (run (L := harness) 40 env_io_error).

Lemma run_io_error :
  run (L := harness) 40 env_io_error = Some (Exited 1, world_io_error).
Proof. vm_compute. reflexivity. Qed.

Lemma io_error_read_fails : read_fails (L := harness) 40 env_io_error.
Proof.
  eexists _, _, _. split; [reflexivity|]. split; [reflexivity|].
  vm_compute. reflexivity.
Qed.

(** Another program name, and a file system in which everything opens. *)
Definition env_renamed : environment :=
  mk_environment ["bin/dumpkeys"%string; "hsm_secret"%string]
                 (fun _ => inr secret32) slow_reads.

(** A library that refuses to serialize. *)
Definition mute_harness : Lib := lib (fun salt => salt <? 2) (-1) false.

Lemma read_mute :
  read_all (L := mute_harness) 40 (open_io env_ok secret32) 0 32
  = Some (true, io_ok).
Proof. vm_compute. reflexivity. Qed.

Definition world_mute : world := world_of (run (L := mute_harness) 40 env_ok).

Lemma run_mute : run (L := mute_harness) 40 env_ok = Some (Aborted, world_mute).
Proof. vm_compute. reflexivity. Qed.

End MoreExamples.

Import MoreExamples.

(** One run for each exit code and each kind of failure: no path, no such
    file, a failing device, a failing derivation, and success. *)
Lemma exit_codes_witness :
  length (argv env_no_path) <> 2%nat
  /\ open_fails env_missing
  /\ read_fails (L := Mock.harness) 40 env_io_error
  /\ derivation_fails (L := Mock.failing_harness) 40 env_ok
  /\ succeeds (L := Mock.harness) 40 env_ok
  /\ (exists w, run (L := Mock.harness) 40 env_no_path = Some (Exited 42, w))
  /\ (exists w, run (L := Mock.harness) 40 env_missing = Some (Exited 1, w))
  /\ (exists w, run (L := Mock.harness) 40 env_io_error = Some (Exited 1, w))
  /\ (exists w, run (L := Mock.failing_harness) 40 env_ok = Some (Exited 1, w))
  /\ (exists w, run (L := Mock.harness) 40 env_ok = Some (Exited 0, w)).
Proof.
  assert (Hargs : length (argv env_no_path) <> 2%nat) by discriminate.
  assert (Hopen : open_fails env_missing).
  { exists "nowhere"%string, 2. now split. }
  assert (Hderive : derivation_fails (L := Mock.failing_harness) 40 env_ok).
  { exists "hsm_secret"%string, Mock.secret32, io_ok, 2%nat.
    split; [reflexivity|]. split; [reflexivity|]. split; [exact read_ok|].
    split.
    - split; [lia|]. split; [|vm_compute; reflexivity].
      apply third_seed_first; vm_compute; reflexivity.
    - right. vm_compute. split; [reflexivity | discriminate]. }
  assert (Hgood : succeeds (L := Mock.harness) 40 env_ok).
  { exists "hsm_secret"%string, Mock.secret32, io_ok, 2%nat.
    split; [reflexivity|]. split; [reflexivity|].
    split; [vm_compute; reflexivity|].
    split.
    - split; [lia|]. split; [|vm_compute; reflexivity].
      apply third_seed_first; vm_compute; reflexivity.
    - split; [vm_compute; reflexivity|].
      split; [vm_compute; reflexivity | reflexivity]. }
  split; [exact Hargs|]. split; [exact Hopen|].
  split; [exact io_error_read_fails|]. split; [exact Hderive|].
  split; [exact Hgood|].
  split.
  { exact (proj1 (exit_codes (L := Mock.harness) 40 env_no_path) Hargs). }
  split.
  { exact (proj1 (proj2 (exit_codes (L := Mock.harness) 40 env_missing))
             eq_refl (or_introl Hopen)). }
  split.
  { exact (proj1 (proj2 (exit_codes (L := Mock.harness) 40 env_io_error))
             eq_refl (or_intror (or_introl io_error_read_fails))). }
  split.
  { exact (proj1 (proj2 (exit_codes (L := Mock.failing_harness) 40 env_ok))
             eq_refl (or_intror (or_intror Hderive))). }
  exact (proj1 (proj2 (proj2 (exit_codes (L := Mock.harness) 40 env_ok)))
           eq_refl Hgood).
Defined.

(** Ten bytes read into the middle of a buffer. *)
Lemma read_all_keeps_to_window_witness :
  (4 + 10 <= length (io_mem io_buffer))%nat
  /\ read_all (L := Mock.harness) 40 io_buffer 4 10 = Some (true, io_first)
  /\ firstn 4 (io_mem io_first) = repeat xff 4
  /\ skipn (4 + 10) (io_mem io_first) = repeat xff 26.
Proof.
  assert (Hbuf : (4 + 10 <= length (io_mem io_buffer))%nat)
    by (vm_compute; lia).
  split; [exact Hbuf|]. split; [exact read_first|].
  destruct (read_all_keeps_to_window (L := Mock.harness) 40 io_buffer 4 10
              true io_first read_first Hbuf) as (_ & Hpre & Hpost & _).
  split; [rewrite Hpre | rewrite Hpost]; reflexivity.
Defined.

(** Ten bytes, then twenty-two more behind them. *)
Lemma read_all_twice_witness :
  (4 + 10 + 22 <= length (io_mem io_buffer))%nat
  /\ read_all (L := Mock.harness) 40 io_buffer 4 10 = Some (true, io_first)
  /\ read_all (L := Mock.harness) 40 io_first (4 + 10) 22
     = Some (true, io_second)
  /\ io_mem io_second = repeat xff 4 ++ Mock.secret32 ++ repeat xff 4.
Proof.
  assert (Hbuf : (4 + 10 + 22 <= length (io_mem io_buffer))%nat)
    by (vm_compute; lia).
  split; [exact Hbuf|]. split; [exact read_first|]. split; [exact read_second|].
  destruct (read_all_twice (L := Mock.harness) 40 40 io_buffer io_first
              io_second 4 10 22 Hbuf read_first read_second) as [Hmem _].
  rewrite Hmem. vm_compute. reflexivity.
Defined.

(** An interrupted call leaves its [EINTR] behind. *)
Lemma read_all_leaves_errno_witness :
  (0 + 32 <= length (io_mem (open_io env_ok Mock.secret32)))%nat
  /\ read_all (L := Mock.failing_harness) 40
              (open_io env_ok Mock.secret32) 0 32 = Some (true, io_ok)
  /\ (io_errno io_ok = 0 \/ In (RdErr (io_errno io_ok)) slow_reads).
Proof.
  assert (Hbuf : (0 + 32 <= length (io_mem (open_io env_ok Mock.secret32)))%nat)
    by (vm_compute; lia).
  split; [exact Hbuf|]. split; [exact read_ok|].
  exact (proj1 (read_all_leaves_errno (L := Mock.failing_harness) 40
                  (open_io env_ok Mock.secret32) 0 32 true io_ok
                  read_ok Hbuf)).
Defined.

(** Twenty bytes: the message explains error 0. *)
Lemma truncated_file_report_witness :
  (length (firstn 20 Mock.secret32) < 32)%nat
  /\ (forall e, ~ In (RdErr e) (sched env_truncated))
  /\ exists w,
      run (L := Mock.harness) 40 env_truncated = Some (Exited 1, w)
      /\ stderr w = ("reading: Unknown error" ++ newline)%string
      /\ hsm_secret w = firstn 20 Mock.secret32 ++ repeat x00 12.
Proof.
  assert (Hshort : (length (firstn 20 Mock.secret32) < 32)%nat)
    by (vm_compute; lia).
  assert (Hnone : forall e, ~ In (RdErr e) (sched env_truncated)).
  { intros e [H|[]]. discriminate. }
  split; [exact Hshort|]. split; [exact Hnone|].
  destruct (truncated_file_report (L := Mock.harness) env_truncated
              "hsm_secret" (firstn 20 Mock.secret32)
              eq_refl eq_refl eq_refl Hshort Hnone)
    as (w & Hrun & Herr & _ & Hsec & _).
  exists w. split; [apply Hrun; vm_compute; lia|].
  split; [rewrite Herr | rewrite Hsec]; reflexivity.
Defined.

(** The device fails: the message explains error 5. *)
Lemma read_error_report_witness :
  (32 <= length Mock.secret32)%nat
  /\ read_fails (L := Mock.harness) 40 env_io_error
  /\ run (L := Mock.harness) 40 env_io_error = Some (Exited 1, world_io_error)
  /\ errno world_io_error = 5
  /\ stderr world_io_error
     = ("reading: " ++ Mock.describe (errno world_io_error) ++ newline)%string.
Proof.
  assert (Hsz : (32 <= length Mock.secret32)%nat) by (vm_compute; lia).
  split; [exact Hsz|]. split; [exact io_error_read_fails|].
  split; [exact run_io_error|].
  destruct (read_error_report (L := Mock.harness) 40 env_io_error
              "hsm_secret" Mock.secret32 (Exited 1) world_io_error
              eq_refl eq_refl eq_refl Hsz io_error_read_fails run_io_error)
    as (_ & _ & _ & Herr & _).
  split; [vm_compute; reflexivity | exact Herr].
Defined.

(** No such file. *)
Lemma open_failure_witness :
  exists w,
    run (L := Mock.harness) 40 env_missing = Some (Exited 1, w)
    /\ stderr w = ("opening: No such file or directory" ++ newline)%string
    /\ calls w = [Call_open "nowhere"].
Proof.
  destruct (open_failure (L := Mock.harness) 40 env_missing "nowhere" 2
              eq_refl eq_refl eq_refl)
    as (w & Hrun & Herr & _ & _ & _ & Hcalls).
  exists w. split; [exact Hrun|]. split; [rewrite Herr; reflexivity|].
  exact Hcalls.
Defined.

(** Another program name, other files around: the same key is printed;
    and when the library does not serialize, each process is aborted with
    a diagnostic under its own name. *)
Lemma only_the_named_file_matters_witness :
  argv env_ok <> argv env_renamed
  /\ fs env_ok "other"%string <> fs env_renamed "other"%string
  /\ run (L := Mock.harness) 40 env_ok = Some (Exited 0, world_ok)
  /\ run (L := mute_harness) 40 env_ok = Some (Aborted, world_mute)
  /\ (exists w,
        run (L := Mock.harness) 40 env_renamed = Some (Exited 0, w)
        /\ stdout w = stdout world_ok
        /\ stderr w = stderr world_ok)
  /\ (exists w,
        run (L := mute_harness) 40 env_renamed = Some (Aborted, w)
        /\ calls w = calls world_mute
        /\ stderr w <> stderr world_mute).
Proof.
  split; [discriminate|]. split; [discriminate|]. split; [exact run_ok|].
  split; [exact run_mute|].
  split.
  - destruct (only_the_named_file_matters (L := Mock.harness) 40 env_ok
                env_renamed "hsm_secret"
                eq_refl eq_refl eq_refl eq_refl eq_refl eq_refl)
      as [_ Hsame].
    destruct (Hsame (Exited 0) world_ok run_ok)
      as (w & Hrun & (_ & _ & _ & _ & Hout & _) & Herr & _).
    exists w. split; [exact Hrun|]. split; [now symmetry|].
    symmetry. apply Herr. discriminate.
  - destruct (only_the_named_file_matters (L := mute_harness) 40 env_ok
                env_renamed "hsm_secret"
                eq_refl eq_refl eq_refl eq_refl eq_refl eq_refl)
      as [_ Hsame].
    destruct (Hsame Aborted world_mute run_mute)
      as (w & Hrun & (_ & _ & _ & _ & _ & Hcalls) & _ & Herr & _).
    exists w. split; [exact Hrun|]. split; [now symmetry|].
    destruct (Herr eq_refl) as [-> ->]. vm_compute. discriminate.
Defined.


(** The failing run prints nothing, and says why on standard error. *)
Lemma output_streams_witness :
  run (L := Mock.failing_harness) 40 env_ok = Some (Exited 1, world_failing)
  /\ stdout world_failing = ""%string.
Proof.
  split; [exact run_failing|].
  apply (proj1 (output_streams (L := Mock.failing_harness) 40 env_ok
                  (Exited 1) world_failing run_failing)).
  discriminate.
Defined.

(** A library that does not serialize. *)
Lemma serialization_failure_aborts_witness :
  first_accepted (L := mute_harness) 40 (io_mem io_ok) 2
  /\ serializable (Lib := mute_harness)
                  (printed_key (L := mute_harness) (io_mem io_ok) 2)
                  (BIP32_FLAG_KEY_PRIVATE (Lib := mute_harness)) = false
  /\ exists w,
      run (L := mute_harness) 40 env_ok = Some (Aborted, w)
      /\ stdout w = ""%string.
Proof.
  assert (Hfirst : first_accepted (L := mute_harness) 40 (io_mem io_ok) 2).
  { split; [lia|]. split; [|vm_compute; reflexivity].
    apply third_seed_first; vm_compute; reflexivity. }
  split; [exact Hfirst|]. split; [reflexivity|].
  destruct (serialization_failure_aborts (L := mute_harness) 40 env_ok
              "hsm_secret" Mock.secret32 io_ok 2
              eq_refl eq_refl eq_refl read_mute Hfirst
              eq_refl eq_refl eq_refl)
    as (w & Hrun & Hout & _).
  exists w. now split.
Defined.

(** The harness run from start to finish. *)
Lemma successful_run_witness :
  (32 <= length Mock.secret32)%nat
  /\ accepted (L := Mock.harness) (firstn 32 Mock.secret32)
              BIP32_VER_MAIN_PRIVATE 2 = true
  /\ exists w,
      run (L := Mock.harness) 40 env_ok = Some (Exited 0, w)
      /\ stdout w = stdout world_ok.
Proof.
  assert (Hsz : (32 <= length Mock.secret32)%nat) by (vm_compute; lia).
  assert (Hacc : accepted (L := Mock.harness) (firstn 32 Mock.secret32)
                          BIP32_VER_MAIN_PRIVATE 2 = true)
    by (vm_compute; reflexivity).
  split; [exact Hsz|]. split; [exact Hacc|].
  destruct (successful_run (L := Mock.harness) env_ok "hsm_secret"
              Mock.secret32 2 eq_refl eq_refl eq_refl Hsz slow_reads_benign)
    as (w & Hrun & Hout & _).
  - apply third_seed_first; vm_compute; reflexivity.
  - exact Hacc.
  - vm_compute. reflexivity.
  - vm_compute. reflexivity.
  - reflexivity.
  - exists w. split; [apply Hrun; vm_compute; lia|].
    rewrite Hout. vm_compute. reflexivity.
Defined.
